(** * ChatApp: the real-time fan-out core of index.js

    A shallow embedding of the WebSocket gateway of index.js: the process-wide
    [clients] map and [subscribedRooms] set, the three Redis clients
    ([pub], [sub], [cli]), the history model [Message], and the event
    listeners registered on the WebSocket server, on each socket and on the
    subscriber connection.

    Conventions of the embedding.
    - A socket object is a [nat] handle; [clients] is a map keyed by it.
    - [JSON.parse] is a library call: an inbound frame is given by what the
      call produces, [None] when it throws a SyntaxError and [Some v] when it
      returns the value [v].  [JSON.stringify] of a value built by the code
      is recorded as that value.
    - Every [await]ed call to Redis or MongoDB either resolves or rejects;
      which one is decided by the environment [env] of the handler run.
      A rejected [await] throws at the place of the call.
    - [uuidv4()], [Date.now()] and [jwt.verify] are supplied by [env].
    - Each listener runs to completion before the next event is taken. *)

From Stdlib Require Import ZArith.
From stdpp Require Import gmap strings list fin_maps sorting.

Set Warnings "-clear-no-such-hyp".

Local Open Scope string_scope.
Local Open Scope Z_scope.
Local Open Scope list_scope.

(** ** JSON values and the JavaScript operators the handlers apply to them *)

#[warnings="-register-all"]
Inductive json : Type :=
| JNull
| JBool (b : bool)
| JNum (n : Z)
| JStr (s : string)
| JArr (items : list json)
| JObj (props : list (string * json)).

(** The result of a property read or of an absent field is [None] for
    [undefined]. *)
Definition jsval := option json.

Fixpoint assoc (k : string) (props : list (string * json)) : jsval :=
  match props with
  | [] => None
  | (k', v) :: rest => if String.eqb k k' then Some v else assoc k rest
  end.

(** [o[k] = v] on an object literal: an existing key keeps its place. *)
Fixpoint obj_set (k : string) (v : json) (props : list (string * json))
  : list (string * json) :=
  match props with
  | [] => [(k, v)]
  | (k', v') :: rest =>
      if String.eqb k k' then (k, v) :: rest else (k', v') :: obj_set k v rest
  end.

(** Own enumerable properties copied by [{...parsed}].  The spread is only
    reached when [parsed.type] is a string, that is with an object (see
    [prop_Some_object]). *)
Definition spread (v : json) : list (string * json) :=
  match v with
  | JObj props => props
  | _ => []
  end.

(** [v === "s"] *)
Definition strict_eq_str (v : jsval) (s : string) : bool :=
  match v with
  | Some (JStr t) => String.eqb t s
  | _ => false
  end.

(** ToBoolean *)
Definition truthy (v : jsval) : bool :=
  match v with
  | None => false
  | Some JNull => false
  | Some (JBool b) => b
  | Some (JNum n) => negb (n =? 0)
  | Some (JStr s) => negb (String.eqb s EmptyString)
  | Some (JArr _) => true
  | Some (JObj _) => true
  end.

(** [v || d] *)
Definition js_or (v : jsval) (d : json) : json :=
  match v with
  | Some x => if truthy v then x else d
  | None => d
  end.

(** ** Session metadata, requests and the environment of a handler run *)

(** The value stored in [clients]: [{ id, room, username }]. *)
Record meta : Type := Meta {
  meta_id : string;
  meta_room : string;
  meta_username : string
}.

(** The two query parameters read from [req.url]. *)
Record request : Type := Request {
  req_token : option string;
  req_room : option string
}.

Record env : Type := Env {
  uuid : string;                          (* uuidv4() *)
  now : Z;                                (* Date.now() *)
  jwt_verify : string -> option string;   (* decoded.username, None: throws *)
  sub_ok : bool;                          (* calls on [sub] resolve *)
  cli_ok : bool;                          (* calls on [cli] resolve *)
  pub_ok : bool;                          (* calls on [pub] resolve *)
  db_ok : bool                            (* Message.create resolves *)
}.

(** ** The state of one gateway process and of the services it talks to *)

Record state : Type := State {
  clients : gmap nat meta;                 (* const clients = new Map() *)
  subscribedRooms : gset string;           (* const subscribedRooms = new Set() *)
  listeners : gmap nat (string * string);  (* sockets with listeners; the
                                              room and username they close over *)
  readyOpen : gset nat;                    (* ws.readyState === WebSocket.OPEN *)
  users : gmap string (gset string);       (* Redis: the set stored at each key *)
  subscriptions : gset string;             (* Redis: channels of [sub] *)
  subscribe_calls : list string;           (* sub.subscribe calls, oldest first *)
  published : list (string * json);        (* pub.publish calls, oldest first *)
  sent : list (nat * json);                (* ws.send calls, oldest first *)
  stored : list json;                      (* documents made by Message.create *)
  errors : list string;                    (* console.error lines *)
  unhandled : list string                  (* exceptions no handler caught *)
}.

Definition init : state :=
  State ∅ ∅ ∅ ∅ ∅ ∅ [] [] [] [] [] [].

Definition set_clients (f : gmap nat meta -> gmap nat meta) (st : state) : state :=
  State (f (clients st)) (subscribedRooms st) (listeners st) (readyOpen st)
        (users st) (subscriptions st) (subscribe_calls st) (published st)
        (sent st) (stored st) (errors st) (unhandled st).

Definition set_subscribedRooms (f : gset string -> gset string) (st : state) : state :=
  State (clients st) (f (subscribedRooms st)) (listeners st) (readyOpen st)
        (users st) (subscriptions st) (subscribe_calls st) (published st)
        (sent st) (stored st) (errors st) (unhandled st).

Definition set_listeners
    (f : gmap nat (string * string) -> gmap nat (string * string)) (st : state) : state :=
  State (clients st) (subscribedRooms st) (f (listeners st)) (readyOpen st)
        (users st) (subscriptions st) (subscribe_calls st) (published st)
        (sent st) (stored st) (errors st) (unhandled st).

Definition set_readyOpen (f : gset nat -> gset nat) (st : state) : state :=
  State (clients st) (subscribedRooms st) (listeners st) (f (readyOpen st))
        (users st) (subscriptions st) (subscribe_calls st) (published st)
        (sent st) (stored st) (errors st) (unhandled st).

Definition set_users
    (f : gmap string (gset string) -> gmap string (gset string)) (st : state) : state :=
  State (clients st) (subscribedRooms st) (listeners st) (readyOpen st)
        (f (users st)) (subscriptions st) (subscribe_calls st) (published st)
        (sent st) (stored st) (errors st) (unhandled st).

Definition set_subscriptions (ch : string) (st : state) : state :=
  State (clients st) (subscribedRooms st) (listeners st) (readyOpen st)
        (users st) ({[ch]} ∪ subscriptions st) (subscribe_calls st ++ [ch])
        (published st) (sent st) (stored st) (errors st) (unhandled st).

Definition add_published (ch : string) (payload : json) (st : state) : state :=
  State (clients st) (subscribedRooms st) (listeners st) (readyOpen st)
        (users st) (subscriptions st) (subscribe_calls st)
        (published st ++ [(ch, payload)])
        (sent st) (stored st) (errors st) (unhandled st).

Definition add_sent (ws : nat) (payload : json) (st : state) : state :=
  State (clients st) (subscribedRooms st) (listeners st) (readyOpen st)
        (users st) (subscriptions st) (subscribe_calls st) (published st)
        (sent st ++ [(ws, payload)]) (stored st) (errors st) (unhandled st).

Definition add_stored (doc : json) (st : state) : state :=
  State (clients st) (subscribedRooms st) (listeners st) (readyOpen st)
        (users st) (subscriptions st) (subscribe_calls st) (published st)
        (sent st) (stored st ++ [doc]) (errors st) (unhandled st).

Definition add_error (line : string) (st : state) : state :=
  State (clients st) (subscribedRooms st) (listeners st) (readyOpen st)
        (users st) (subscriptions st) (subscribe_calls st) (published st)
        (sent st) (stored st) (errors st ++ [line]) (unhandled st).

Definition add_unhandled (err : string) (st : state) : state :=
  State (clients st) (subscribedRooms st) (listeners st) (readyOpen st)
        (users st) (subscriptions st) (subscribe_calls st) (published st)
        (sent st) (stored st) (errors st) (unhandled st ++ [err]).

(** ** Handlers as state transformers that may throw *)

Inductive result (A : Type) : Type :=
| Ok (a : A)
| Throw (err : string).
Arguments Ok {A} a.
Arguments Throw {A} err.

Definition M (A : Type) : Type := state -> result A * state.

Definition ret {A} (a : A) : M A := fun st => (Ok a, st).

Definition throw {A} (err : string) : M A := fun st => (Throw err, st).

Definition bind {A B} (m : M A) (k : A -> M B) : M B :=
  fun st =>
    match m st with
    | (Ok a, st') => k a st'
    | (Throw err, st') => (Throw err, st')
    end.

(** [try { body } catch (err) { handler }] *)
Definition try_catch {A} (body : M A) (handler : string -> M A) : M A :=
  fun st =>
    match body st with
    | (Ok a, st') => (Ok a, st')
    | (Throw err, st') => handler err st'
    end.

Definition gets {A} (f : state -> A) : M A := fun st => (Ok (f st), st).

Definition modify (f : state -> state) : M unit := fun st => (Ok tt, f st).

Declare Scope M_scope.
Delimit Scope M_scope with M.
Bind Scope M_scope with M.
Notation "x <- m ;; k" := (bind m (fun x => k))
  (at level 100, m at next level, k at level 200, right associativity) : M_scope.
Notation "m ;; k" := (bind m (fun _ => k))
  (at level 100, k at level 200, right associativity) : M_scope.
Local Open Scope M_scope.

Fixpoint for_each {A} (l : list A) (body : A -> M unit) : M unit :=
  match l with
  | [] => ret tt
  | x :: rest => body x ;; for_each rest body
  end.

(** A listener called by the event loop: what it throws is caught by nobody. *)
Definition run (m : M unit) (st : state) : state :=
  match m st with
  | (Ok _, st') => st'
  | (Throw err, st') => add_unhandled err st'
  end.

(** ** HELPERS *)

Definition redisRoomChannel (room : string) : string :=
  "room:" +:+ room +:+ ":channel".

Definition redisRoomUsersKey (room : string) : string :=
  "room:" +:+ room +:+ ":users".

(** The set a Redis key holds; a key that does not exist holds the empty set. *)
Definition smembers (db : gmap string (gset string)) (key : string) : gset string :=
  default ∅ (db !! key).

Definition sadd (key member : string) (db : gmap string (gset string))
  : gmap string (gset string) :=
  <[key := {[member]} ∪ smembers db key]> db.

(** Redis removes a key whose set has become empty. *)
Definition srem (key member : string) (db : gmap string (gset string))
  : gmap string (gset string) :=
  let s := smembers db key ∖ {[member]} in
  if decide (s = ∅) then delete key db else <[key := s]> db.

Section Handlers.

Variable e : env.

(** *** Library calls *)

Definition JSON_parse (data : option json) : M json :=
  match data with
  | Some v => ret v
  | None => throw "SyntaxError"
  end.

(** [v.k]: reading a property of [null] throws; the primitives and the
    arrays JSON.parse returns have none of the properties the handlers read. *)
Definition get (v : json) (k : string) : M jsval :=
  match v with
  | JNull => throw "TypeError"
  | JObj props => ret (assoc k props)
  | _ => ret None
  end.

Definition sub_subscribe (channel : string) : M unit :=
  if sub_ok e then modify (set_subscriptions channel)
  else throw "sub.subscribe rejected".

Definition cli_sadd (key member : string) : M unit :=
  if cli_ok e then modify (set_users (sadd key member))
  else throw "cli.sadd rejected".

Definition cli_srem (key member : string) : M unit :=
  if cli_ok e then modify (set_users (srem key member))
  else throw "cli.srem rejected".

Definition cli_smembers (key : string) : M (list string) :=
  if cli_ok e then gets (fun st => elements (smembers (users st) key))
  else throw "cli.smembers rejected".

Definition pub_publish (channel : string) (payload : json) : M unit :=
  if pub_ok e then modify (add_published channel payload)
  else throw "pub.publish rejected".

Definition Message_create (doc : json) : M unit :=
  if db_ok e then modify (add_stored doc)
  else throw "Message.create rejected".

Definition ws_send (ws : nat) (payload : json) : M unit :=
  modify (add_sent ws payload).

Definition ws_close (ws : nat) : M unit :=
  modify (set_readyOpen (fun s => s ∖ {[ws]})).

Definition console_error (line : string) : M unit :=
  modify (add_error line).

(** *** ensureSubscribed, addUserToRoom, removeUserFromRoom *)

Definition ensureSubscribed (room : string) : M unit :=
  let channel := redisRoomChannel room in
  has <- gets (fun st => bool_decide (channel ∈ subscribedRooms st)) ;;
  if negb has then
    sub_subscribe channel ;;
    modify (set_subscribedRooms (fun s => {[channel]} ∪ s))
  else ret tt.

Definition presence (room : string) (users : list string) : json :=
  JObj [("type", JStr "presence"); ("action", JStr "update");
        ("room", JStr room); ("users", JArr (JStr <$> users))].

Definition addUserToRoom (room username : string) : M unit :=
  cli_sadd (redisRoomUsersKey room) username ;;
  users <- cli_smembers (redisRoomUsersKey room) ;;
  pub_publish (redisRoomChannel room) (presence room users).

Definition removeUserFromRoom (room username : string) : M unit :=
  cli_srem (redisRoomUsersKey room) username ;;
  users <- cli_smembers (redisRoomUsersKey room) ;;
  pub_publish (redisRoomChannel room) (presence room users).

(** *** REDIS PUB/SUB BROADCAST: sub.on("message") *)

(** [meta.room === room && ws.readyState === WebSocket.OPEN]; [meta.room] is
    a string, so it is strictly equal to [room] only when [room] is that
    string. *)
Definition forwards (st : state) (room : jsval) (ws : nat) (m : meta) : bool :=
  strict_eq_str room (meta_room m) && bool_decide (ws ∈ readyOpen st).

Definition sub_on_message (channel : string) (message : option json) : M unit :=
  msg <- JSON_parse message ;;
  room <- get msg "room" ;;
  entries <- gets (fun st => map_to_list (clients st)) ;;
  for_each entries (fun '(ws, m) =>
    ok <- gets (fun st => forwards st room ws m) ;;
    if ok then ws_send ws msg else ret tt).

(** *** WEBSOCKET CONNECTION: the listeners of one socket *)

Definition type_is (parsed : json) (s : string) : M bool :=
  t <- get parsed "type" ;;
  ret (strict_eq_str t s).

Definition chatMessage (room username : string) (parsed_messageType parsed_text : jsval)
  : json :=
  JObj [("id", JStr (uuid e));
        ("type", JStr "message");
        ("messageType", js_or parsed_messageType (JStr "text"));
        ("room", JStr room);
        ("user", JStr username);
        ("text", js_or parsed_text (JStr EmptyString));
        ("ts", JNum (now e))].

Definition messageDoc (room username : string) (parsed_messageType parsed_text : jsval)
  : json :=
  JObj [("room", JStr room);
        ("user", JStr username);
        ("text", js_or parsed_text (JStr EmptyString));
        ("ts", JNum (now e));
        ("messageType", js_or parsed_messageType (JStr "text"))].

Definition signal (room username : string) (parsed : json) : json :=
  JObj (obj_set "from" (JStr username) (obj_set "room" (JStr room) (spread parsed))).

Definition pong : json := JObj [("type", JStr "pong"); ("ts", JNum (now e))].

(** ws.on("message", async (data) => ...) with the [ws], [room] and
    [username] of the enclosing connection. *)
Definition on_message (ws : nat) (room username : string) (data : option json) : M unit :=
  try_catch
    (parsed <- JSON_parse data ;;
     offer <- type_is parsed "webrtc-offer" ;;
     answer <- type_is parsed "webrtc-answer" ;;
     ice <- type_is parsed "webrtc-ice" ;;
     if offer || answer || ice then
       pub_publish (redisRoomChannel room) (signal room username parsed)
     else
       (is_message <- type_is parsed "message" ;;
        if is_message then
          mt <- get parsed "messageType" ;;
          text <- get parsed "text" ;;
          Message_create (messageDoc room username mt text) ;;
          pub_publish (redisRoomChannel room) (chatMessage room username mt text)
        else ret tt) ;;
       is_ping <- type_is parsed "ping" ;;
       if is_ping then ws_send ws pong else ret tt)
    (fun err => console_error "message error:").

(** ws.on("close", async () => ...) *)
Definition on_close (ws : nat) (room username : string) : M unit :=
  modify (set_clients (delete ws)) ;;
  removeUserFromRoom room username.

Definition error_event (message : string) : json :=
  JObj [("type", JStr "error"); ("message", JStr message)].

Definition welcome (id room : string) (currentUsers : list string) : json :=
  JObj [("type", JStr "system"); ("subtype", JStr "welcome");
        ("id", JStr id); ("room", JStr room);
        ("users", JArr (JStr <$> currentUsers)); ("ts", JNum (now e))].

(** [url.searchParams.get("room") || "global"] *)
Definition room_of (req : request) : string :=
  match req_room req with
  | Some r => if String.eqb r EmptyString then "global" else r
  | None => "global"
  end.

(** [!token] *)
Definition token_missing (req : request) : bool :=
  match req_token req with
  | Some t => String.eqb t EmptyString
  | None => true
  end.

(** wss.on("connection", async (ws, req) => ...) *)
Definition connection (ws : nat) (req : request) : M unit :=
  try_catch
    (let room := room_of req in
     if token_missing req then
       ws_send ws (error_event "Token missing") ;;
       ws_close ws
     else
       match jwt_verify e (default EmptyString (req_token req)) with
       | None =>
           ws_send ws (error_event "Invalid token") ;;
           ws_close ws
       | Some username =>
           let id := uuid e in
           modify (set_clients <[ws := Meta id room username]>) ;;
           ensureSubscribed room ;;
           addUserToRoom room username ;;
           currentUsers <- cli_smembers (redisRoomUsersKey room) ;;
           ws_send ws (welcome id room currentUsers) ;;
           modify (set_listeners <[ws := (room, username)]>)
       end)
    (fun err => console_error "WS connection error:").

End Handlers.

(** ** The event loop *)

Inductive event : Type :=
| Connection (ws : nat) (req : request)              (* wss "connection" *)
| WsMessage (ws : nat) (data : option json)          (* ws "message" *)
| WsClose (ws : nat)                                 (* ws "close" *)
| SubMessage (channel : string) (message : option json). (* sub "message" *)

(** One event taken by the process under the environment [e].  A socket is
    OPEN when the server emits "connection"; it emits "close" once, after
    which its listeners are never called again; Redis delivers on [sub] only
    the channels [sub] is subscribed to. *)
Definition step (e : env) (ev : event) (st : state) : state :=
  match ev with
  | Connection ws req =>
      run (connection e ws req) (set_readyOpen (fun s => {[ws]} ∪ s) st)
  | WsMessage ws data =>
      match listeners st !! ws with
      | Some (room, username) => run (on_message e ws room username data) st
      | None => st
      end
  | WsClose ws =>
      let st := set_readyOpen (fun s => s ∖ {[ws]}) st in
      match listeners st !! ws with
      | Some (room, username) =>
          set_listeners (delete ws) (run (on_close e ws room username) st)
      | None => st
      end
  | SubMessage channel message =>
      if bool_decide (channel ∈ subscriptions st)
      then run (sub_on_message channel message) st
      else st
  end.

Fixpoint steps (trace : list (env * event)) (st : state) : state :=
  match trace with
  | [] => st
  | (e, ev) :: rest => steps rest (step e ev st)
  end.

(** The membership set of a room and the identities with a session
    registered for it. *)
Definition members (st : state) (room : string) : gset string :=
  smembers (users st) (redisRoomUsersKey room).

Definition open_identities (st : state) (room : string) : gset string :=
  list_to_set
    (meta_username <$>
       filter (fun m => meta_room m = room) (snd <$> map_to_list (clients st))).

(** ** Vocabulary of the statements *)

(** A property of an inbound event, [undefined] when the event is not an
    object or has no such property. *)
Definition prop (v : json) (k : string) : jsval :=
  match v with
  | JObj props => assoc k props
  | _ => None
  end.

(** The kinds of inbound event the message listener acts on. *)
Definition recognised_kinds : list string :=
  ["webrtc-offer"; "webrtc-answer"; "webrtc-ice"; "message"; "ping"].

Definition recognised (v : json) : bool :=
  existsb (strict_eq_str (prop v "type")) recognised_kinds.

(** The session of [ws] is joined: its listeners are registered, with the
    room and the identity fixed at the handshake. *)
Definition joined (st : state) (ws : nat) (room username : string) : Prop :=
  listeners st !! ws = Some (room, username).

(** The identity a handshake authenticates, if any. *)
Definition authenticated (e : env) (req : request) : option string :=
  if token_missing req then None
  else jwt_verify e (default EmptyString (req_token req)).

Definition services_up (e : env) : Prop :=
  sub_ok e = true ∧ cli_ok e = true ∧ pub_ok e = true.

(** The frames [ws.send] was called with on the socket [ws]. *)
Definition sent_to (st : state) (ws : nat) : list json :=
  snd <$> filter (fun p => p.1 = ws) (sent st).

(** The frames one bus event adds on one socket. *)
Definition forwarded (st : state) (msg : json) (ws : nat) : list json :=
  match clients st !! ws with
  | Some m => if forwards st (prop msg "room") ws m then [msg] else []
  | None => []
  end.

(** The registry, the listeners and the presence sets agree: a socket has
    listeners exactly when it is registered, with the room and identity of
    its entry; no two registered sockets share room and identity; and an
    identity is a member of a room exactly when a registered socket carries
    it in that room. *)
Definition consistent (st : state) : Prop :=
  (∀ ws room username,
     listeners st !! ws = Some (room, username) →
     ∃ id, clients st !! ws = Some (Meta id room username)) ∧
  (∀ ws, listeners st !! ws = None → clients st !! ws = None) ∧
  (∀ ws1 ws2 id1 id2 room username,
     clients st !! ws1 = Some (Meta id1 room username) →
     clients st !! ws2 = Some (Meta id2 room username) → ws1 = ws2) ∧
  (∀ room username,
     username ∈ members st room ↔
     ∃ ws id, clients st !! ws = Some (Meta id room username)).

(** The states reached from [init] by connects and disconnects whose Redis
    calls resolve, by inbound frames and by bus deliveries, when no identity
    opens a session in a room in which it already has one. *)
Inductive single_sessions : state → Prop :=
| ss_init : single_sessions init
| ss_connection (e : env) (ws : nat) (req : request) (st : state) :
    single_sessions st →
    services_up e →
    clients st !! ws = None →
    (∀ username, authenticated e req = Some username →
                 username ∉ open_identities st (room_of req)) →
    single_sessions (step e (Connection ws req) st)
| ss_close (e : env) (ws : nat) (st : state) :
    single_sessions st →
    services_up e →
    single_sessions (step e (WsClose ws) st)
| ss_message (e : env) (ws : nat) (data : option json) (st : state) :
    single_sessions st →
    single_sessions (step e (WsMessage ws data) st)
| ss_sub (e : env) (channel : string) (message : option json) (st : state) :
    single_sessions st →
    single_sessions (step e (SubMessage channel message) st).

(** The state after [ws.send] was called with each of [frames] in turn. *)
Definition add_sents (frames : list (nat * json)) (st : state) : state :=
  State (clients st) (subscribedRooms st) (listeners st) (readyOpen st)
        (users st) (subscriptions st) (subscribe_calls st) (published st)
        (sent st ++ frames) (stored st) (errors st) (unhandled st).

(** ** Sample environments, requests and states used by the examples *)

Definition sample_verify (token : string) : option string :=
  if String.eqb token "tok-alice" then Some "alice"
  else if String.eqb token "tok-bob" then Some "bob"
  else None.

(** Every service answers. *)
Definition all_up : env :=
  Env "0b5e6f0a-0001" 1700000000000 sample_verify true true true true.

(** MongoDB rejects the append. *)
Definition history_down : env :=
  Env "0b5e6f0a-0002" 1700000000001 sample_verify true true true false.

(** The Redis connection [cli] of the presence sets is down. *)
Definition presence_down : env :=
  Env "0b5e6f0a-0003" 1700000000002 sample_verify true false true true.

Definition alice_dev : request := Request (Some "tok-alice") (Some "dev").
Definition bob_dev : request := Request (Some "tok-bob") (Some "dev").
Definition bob_ops : request := Request (Some "tok-bob") (Some "ops").

Definition hi : json :=
  JObj [("type", JStr "message"); ("text", JStr "hi"); ("messageType", JStr "text")].

Definition hi_without_messageType : json :=
  JObj [("type", JStr "message"); ("text", JStr "hi")].

Definition ping : json := JObj [("type", JStr "ping")].

Definition typing : json := JObj [("type", JStr "typing"); ("on", JBool true)].

(** A chat message as it arrives from the bus. *)
Definition hi_event : json :=
  JObj [("id", JStr "0b5e6f0a-0009"); ("type", JStr "message");
        ("messageType", JStr "text"); ("room", JStr "dev");
        ("user", JStr "alice"); ("text", JStr "hi"); ("ts", JNum 1700000000009)].

(** alice has joined "dev" on socket 1. *)
Definition st_alice : state := steps [(all_up, Connection 1%nat alice_dev)] init.

(** alice has joined "dev" on sockets 1 and 2. *)
Definition st_alice_twice : state :=
  steps [(all_up, Connection 1%nat alice_dev); (all_up, Connection 2%nat alice_dev)] init.

(** alice and bob have joined "dev" on sockets 1 and 2, bob also "ops" on 3. *)
Definition st_three : state :=
  steps [(all_up, Connection 1%nat alice_dev); (all_up, Connection 2%nat bob_dev);
         (all_up, Connection 3%nat bob_ops)] init.

(** alice and bob have joined "dev" on sockets 1 and 2, then alice has left. *)
Definition st_bob_alone : state :=
  steps [(all_up, Connection 1%nat alice_dev); (all_up, Connection 2%nat bob_dev);
         (all_up, WsClose 1%nat)] init.

(** ** REDIS CONFIG *)

(** [a || b] on environment variables: an unset and an empty variable are
    both falsy. *)
Definition or_else (a b : option string) : option string :=
  match a with
  | Some s => if String.eqb s EmptyString then b else a
  | None => b
  end.

(** [process.env.NODE_ENV === "production"] *)
Definition isDocker (penv : gmap string string) : bool :=
  match penv !! "NODE_ENV" with
  | Some v => String.eqb v "production"
  | None => false
  end.

Definition REDIS_URL (penv : gmap string string) : string :=
  default "redis://127.0.0.1:6379"
    (or_else
       (or_else (penv !! "REDIS_URL")
          (if isDocker penv then penv !! "REDIS_DOCKER" else penv !! "REDIS_LOCAL"))
       (Some "redis://127.0.0.1:6379")).

(** ** The HTTP routes: JWT middleware, chat history, file upload *)

(** [res.status(status).json(body)]; [res.json(body)] answers 200. *)
Record response : Type := Response {
  status : Z;
  body : json
}.

(** [req.file] as multer leaves it. *)
Record file : Type := File {
  file_filename : string;
  file_originalname : string;
  file_size : Z;
  file_mimetype : string
}.

(** What the upload route reads of a request: the Authorization header,
    [req.body.room] and [req.file]. *)
Record upload_request : Type := UploadRequest {
  up_authorization : option string;
  up_room : option string;
  up_file : option file
}.

(** [s.split(" ")] *)
Fixpoint split_space (s : string) : list string :=
  match s with
  | EmptyString => [EmptyString]
  | String c rest =>
      if Ascii.eqb c Ascii.Space then EmptyString :: split_space rest
      else match split_space rest with
           | piece :: pieces => String c piece :: pieces
           | [] => [String c EmptyString]
           end
  end.

(** The string contains no space. *)
Fixpoint space_free (s : string) : bool :=
  match s with
  | EmptyString => true
  | String c rest => negb (Ascii.eqb c Ascii.Space) && space_free rest
  end.

(** [auth.split(" ")[1]] *)
Definition bearer_token (auth : string) : option string :=
  split_space auth !! 1%nat.

Definition error_body (message : string) : json :=
  JObj [("error", JStr message)].

(** The timestamp a stored document is sorted by. *)
Definition ts_of (doc : json) : Z :=
  match prop doc "ts" with
  | Some (JNum n) => n
  | _ => 0
  end.

Definition ts_le (d1 d2 : json) : Prop := ts_of d1 ≤ ts_of d2.

(** The stored documents the query [{ room }] selects, oldest insert first. *)
Definition room_docs (st : state) (room : string) : list json :=
  filter (fun doc => strict_eq_str (prop doc "room") room = true) (stored st).

#[global] Instance ts_le_dec : RelDecision ts_le :=
  fun d1 d2 => decide (ts_of d1 ≤ ts_of d2).

Section Http.

Variable e : env.

(** httpAuth(req, res, next): the identity handed to the next handler, or
    the response that ends the request. *)
Definition httpAuth (authorization : option string) : string + response :=
  match authorization with
  | Some auth =>
      if negb (String.eqb auth EmptyString) && String.prefix "Bearer " auth then
        match bearer_token auth with
        | Some token =>
            match jwt_verify e token with
            | Some username => inl username
            | None => inr (Response 401 (error_body "Invalid token"))
            end
        | None => inr (Response 401 (error_body "Invalid token"))
        end
      else inr (Response 401 (error_body "Missing token"))
  | None => inr (Response 401 (error_body "Missing token"))
  end.

(** [Message.find({ room }).sort({ ts: 1 }).limit(100)]; a stored document
    is the object [Message.create] was called with. *)
Definition Message_find (room : string) : M (list json) :=
  if db_ok e then
    gets (fun st => take 100 (merge_sort ts_le (room_docs st room)))
  else throw "Message.find rejected".

(** app.get("/history", ...) with [req.query.room], a string when present. *)
Definition history (room : option string) : M response :=
  try_catch
    (match room with
     | Some room =>
         if String.eqb room EmptyString
         then ret (Response 400 (error_body "room required"))
         else
           messages <- Message_find room ;;
           ret (Response 200 (JArr messages))
     | None => ret (Response 400 (error_body "room required"))
     end)
    (fun err =>
       console_error "history error:" ;;
       ret (Response 500 (error_body "server error"))).

Definition fileMessage (room username : string) (f : file) : json :=
  JObj [("id", JStr (uuid e));
        ("type", JStr "message");
        ("messageType", JStr "file");
        ("room", JStr room);
        ("user", JStr username);
        ("text", JStr EmptyString);
        ("fileUrl", JStr ("/files/" +:+ file_filename f));
        ("fileName", JStr (file_originalname f));
        ("fileSize", JNum (file_size f));
        ("fileType", JStr (file_mimetype f));
        ("ts", JNum (now e))].

Definition fileDoc (room username : string) (f : file) : json :=
  JObj [("room", JStr room);
        ("user", JStr username);
        ("text", JStr EmptyString);
        ("ts", JNum (now e));
        ("messageType", JStr "file");
        ("fileUrl", JStr ("/files/" +:+ file_filename f));
        ("fileName", JStr (file_originalname f));
        ("fileSize", JNum (file_size f));
        ("fileType", JStr (file_mimetype f))].

(** The handler of app.post("/upload", httpAuth, upload.single("file"), ...)
    with [req.user.username], [req.body.room] and [req.file]. *)
Definition upload (username : string) (room : option string) (f : option file)
  : M response :=
  try_catch
    (match room, f with
     | Some room, Some f =>
         if String.eqb room EmptyString
         then ret (Response 400 (error_body "room and file are required"))
         else
           Message_create e (fileDoc room username f) ;;
           pub_publish e (redisRoomChannel room) (fileMessage room username f) ;;
           ret (Response 200 (fileMessage room username f))
     | _, _ => ret (Response 400 (error_body "room and file are required"))
     end)
    (fun err =>
       console_error "upload error:" ;;
       ret (Response 500 (error_body "Upload failed"))).

End Http.

(** ** The whole server *)

Inductive action : Type :=
| Gateway (ev : event)
| Upload (req : upload_request)           (* POST /upload *)
| History (room : option string).         (* GET /history *)

Definition respond (m : M response) (st : state) : option response * state :=
  match m st with
  | (Ok r, st') => (Some r, st')
  | (Throw err, st') => (None, add_unhandled err st')
  end.

(** One request or event served under the environment [e]: the HTTP response,
    if the action has one, and the state it leaves. *)
Definition serve (e : env) (a : action) (st : state) : option response * state :=
  match a with
  | Gateway ev => (None, step e ev st)
  | Upload req =>
      match httpAuth e (up_authorization req) with
      | inl username => respond (upload e username (up_room req) (up_file req)) st
      | inr r => (Some r, st)
      end
  | History room => respond (history e room) st
  end.

(** The socket of a "connection" event is a new object. *)
Definition fresh_socket (a : action) (st : state) : Prop :=
  match a with
  | Gateway (Connection ws _) => clients st !! ws = None ∧ listeners st !! ws = None
  | _ => True
  end.

(** The states the server reaches from [init], whatever the services answer. *)
Inductive reachable : state → Prop :=
| reachable_init : reachable init
| reachable_serve (e : env) (a : action) (st : state) :
    reachable st → fresh_socket a st → reachable (serve e a st).2.

(** A published item is on the channel of the room its payload names. *)
Definition on_room_channel (item : string * json) : Prop :=
  ∃ room, item.1 = redisRoomChannel room ∧ prop item.2 "room" = Some (JStr room).

(** Redis is down altogether. *)
Definition redis_down : env :=
  Env "0b5e6f0a-0004" 1700000000003 sample_verify false false false true.

Definition photo : file := File "1700000000000-42.png" "cat.png" 2048 "image/png".

Definition offer : json :=
  JObj [("type", JStr "webrtc-offer"); ("sdp", JStr "v=0"); ("from", JStr "bob");
        ("room", JStr "ops")].

(** The chat frame [hi] with fields a client may add to pass for someone else. *)
Definition hi_spoofed : json :=
  JObj [("type", JStr "message"); ("text", JStr "hi"); ("messageType", JStr "text");
        ("user", JStr "bob"); ("room", JStr "ops"); ("id", JStr "forged");
        ("ts", JNum 1)].

Definition no_room : request := Request (Some "tok-alice") None.
Definition no_token : request := Request None (Some "dev").

Definition bob_uploads : upload_request :=
  UploadRequest (Some "Bearer tok-bob") (Some "dev") (Some photo).

Definition anonymous_upload : upload_request :=
  UploadRequest None (Some "dev") (Some photo).

Definition upload_without_room : upload_request :=
  UploadRequest (Some "Bearer tok-bob") None (Some photo).

(** A chat frame sent at time [t]. *)
Definition at_time (t : Z) : env := Env "0b5e6f0a-0005" t sample_verify true true true true.

(** alice has joined "dev" and sent a hundred chat frames at times 1 to 100,
    then one more at time 500. *)
Definition st_busy : state :=
  steps (((fun t => (at_time (Z.of_nat t), WsMessage 1%nat (Some hi))) <$> seq 1 100)
         ++ [(at_time 500, WsMessage 1%nat (Some hi))]) st_alice.

(** The last chat document of [st_busy]. *)
Definition newest : json :=
  messageDoc (at_time 500) "dev" "alice" (Some (JStr "text")) (Some (JStr "hi")).

(** The subscriptions are kept in step: the channels [sub] is subscribed to
    are those of [subscribedRooms], and [sub.subscribe] was called once for
    each of them. *)
Definition subscriptions_in_step (st : state) : Prop :=
  subscriptions st = subscribedRooms st ∧
  subscribedRooms st = list_to_set (subscribe_calls st) ∧
  NoDup (subscribe_calls st).

(** Every socket with listeners is registered with the room and identity
    its listeners close over, is OPEN, and its room, never the empty name, is
    subscribed. *)
Definition sessions_registered (st : state) : Prop :=
  ∀ ws room username,
    listeners st !! ws = Some (room, username) →
    (∃ id, clients st !! ws = Some (Meta id room username)) ∧
    redisRoomChannel room ∈ subscribedRooms st ∧
    ws ∈ readyOpen st ∧
    room ≠ EmptyString.

(** The environment of the Docker image: NODE_ENV=production, with both
    Redis addresses given. *)
Definition docker_env : gmap string string :=
  {[ "NODE_ENV" := "production"; "REDIS_LOCAL" := "redis://127.0.0.1:6379";
     "REDIS_DOCKER" := "redis://redis:6379" ]}.

(** * Properties *)

(** ** Keys and channels *)

Lemma length_append (s t : string) :
  String.length (s +:+ t) = (String.length s + String.length t)%nat.
Proof. induction s as [|c s IH]; simpl; [done | by rewrite IH]. Qed.

Lemma append_inj_r (t s1 s2 : string) : s1 +:+ t = s2 +:+ t → s1 = s2.
Proof.
  revert s2. induction s1 as [|c s1 IH]; intros [|d s2] H; simpl in H.
  - done.
  - apply (f_equal String.length) in H.
    rewrite !length_append in H. simpl in H. lia.
  - apply (f_equal String.length) in H.
    rewrite !length_append in H. simpl in H. lia.
  - injection H as -> H. f_equal. by apply IH.
Qed.

Lemma redisRoomUsersKey_inj (r1 r2 : string) :
  redisRoomUsersKey r1 = redisRoomUsersKey r2 → r1 = r2.
Proof.
  unfold redisRoomUsersKey. intros H.
  apply (inj (String.append "room:")) in H. by apply append_inj_r in H.
Qed.

Lemma redisRoomChannel_inj (r1 r2 : string) :
  redisRoomChannel r1 = redisRoomChannel r2 → r1 = r2.
Proof.
  unfold redisRoomChannel. intros H.
  apply (inj (String.append "room:")) in H. by apply append_inj_r in H.
Qed.

(** ** The Redis set commands *)

Lemma smembers_sadd (db : gmap string (gset string)) (key member key' : string) :
  smembers (sadd key member db) key' =
  if decide (key = key') then {[member]} ∪ smembers db key else smembers db key'.
Proof.
  unfold sadd, smembers at 1. case_decide as Hk.
  - subst. by rewrite lookup_insert_eq.
  - by rewrite lookup_insert_ne.
Qed.

Lemma smembers_srem (db : gmap string (gset string)) (key member key' : string) :
  smembers (srem key member db) key' =
  if decide (key = key') then smembers db key ∖ {[member]} else smembers db key'.
Proof.
  unfold srem. destruct (decide (smembers db key ∖ {[member]} = ∅)) as [He|He];
    unfold smembers at 1; case_decide as Hk; subst.
  - by rewrite lookup_delete_eq, He.
  - by rewrite lookup_delete_ne.
  - by rewrite lookup_insert_eq.
  - by rewrite lookup_insert_ne.
Qed.

(** ** addUserToRoom and removeUserFromRoom on the membership sets *)

Section Presence.

Variable e : env.

Lemma addUserToRoom_ok (room username : string) (st : state) :
  cli_ok e = true → pub_ok e = true →
  addUserToRoom e room username st =
  (Ok tt,
   let st1 := set_users (sadd (redisRoomUsersKey room) username) st in
   add_published (redisRoomChannel room)
     (presence room (elements (members st1 room))) st1).
Proof.
  intros Hc Hp. unfold addUserToRoom, cli_sadd, cli_smembers, pub_publish, bind.
  by rewrite Hc, Hp.
Qed.

Lemma removeUserFromRoom_ok (room username : string) (st : state) :
  cli_ok e = true → pub_ok e = true →
  removeUserFromRoom e room username st =
  (Ok tt,
   let st1 := set_users (srem (redisRoomUsersKey room) username) st in
   add_published (redisRoomChannel room)
     (presence room (elements (members st1 room))) st1).
Proof.
  intros Hc Hp. unfold removeUserFromRoom, cli_srem, cli_smembers, pub_publish, bind.
  by rewrite Hc, Hp.
Qed.

(** Whatever the services do, a join changes the membership sets by at most
    one SADD and a leave by at most one SREM. *)
Lemma addUserToRoom_users (room username : string) (st : state) :
  users (addUserToRoom e room username st).2 =
  if cli_ok e then sadd (redisRoomUsersKey room) username (users st) else users st.
Proof.
  unfold addUserToRoom, cli_sadd, cli_smembers, pub_publish, bind.
  by destruct (cli_ok e), (pub_ok e).
Qed.

Lemma removeUserFromRoom_users (room username : string) (st : state) :
  users (removeUserFromRoom e room username st).2 =
  if cli_ok e then srem (redisRoomUsersKey room) username (users st) else users st.
Proof.
  unfold removeUserFromRoom, cli_srem, cli_smembers, pub_publish, bind.
  by destruct (cli_ok e), (pub_ok e).
Qed.

Lemma members_join (room username r : string) (st : state) :
  cli_ok e = true →
  members (addUserToRoom e room username st).2 r =
  if decide (room = r) then {[username]} ∪ members st room else members st r.
Proof.
  intros Hc. unfold members. rewrite addUserToRoom_users, Hc, smembers_sadd.
  repeat case_decide; subst; try done.
  by match goal with H : redisRoomUsersKey _ = _ |- _ =>
       apply redisRoomUsersKey_inj in H end.
Qed.

Lemma members_leave (room username r : string) (st : state) :
  cli_ok e = true →
  members (removeUserFromRoom e room username st).2 r =
  if decide (room = r) then members st room ∖ {[username]} else members st r.
Proof.
  intros Hc. unfold members. rewrite removeUserFromRoom_users, Hc, smembers_srem.
  repeat case_decide; subst; try done.
  by match goal with H : redisRoomUsersKey _ = _ |- _ =>
       apply redisRoomUsersKey_inj in H end.
Qed.

End Presence.

(** ** Presence Store: idempotence and round trip *)

(** C7. Joining a room the identity is already a member of, and leaving a
    room it is not a member of, return without error and leave every
    membership set as it was; a join after a join yields the same sets. *)
Theorem join_leave_idempotent (e : env) (room username : string) (st : state) :
  cli_ok e = true → pub_ok e = true →
  (username ∈ members st room →
     (addUserToRoom e room username st).1 = Ok tt ∧
     ∀ r, members (addUserToRoom e room username st).2 r = members st r) ∧
  (username ∉ members st room →
     (removeUserFromRoom e room username st).1 = Ok tt ∧
     ∀ r, members (removeUserFromRoom e room username st).2 r = members st r) ∧
  (∀ r, members (addUserToRoom e room username
                   (addUserToRoom e room username st).2).2 r =
        members (addUserToRoom e room username st).2 r).
Proof.
  intros Hc Hp. split; [|split].
  - intros Hin. rewrite addUserToRoom_ok by done. split; [done|].
    intros r. rewrite <- (addUserToRoom_ok e room username st) by done.
    rewrite members_join by done.
    destruct (decide (room = r)) as [<-|]; [set_solver|done].
  - intros Hnin. rewrite removeUserFromRoom_ok by done. split; [done|].
    intros r. rewrite <- (removeUserFromRoom_ok e room username st) by done.
    rewrite members_leave by done.
    destruct (decide (room = r)) as [<-|]; [set_solver|done].
  - intros r. rewrite (members_join _ _ _ r) by done.
    destruct (decide (room = r)) as [<-|]; [|done].
    rewrite members_join, decide_True by done. set_solver.
Qed.

Lemma join_leave_idempotent_witness :
  ((addUserToRoom all_up "dev" "alice" st_alice).1 = Ok tt ∧
   members (addUserToRoom all_up "dev" "alice" st_alice).2 "dev" =
   members st_alice "dev") ∧
  ((removeUserFromRoom all_up "dev" "bob" st_alice).1 = Ok tt ∧
   members (removeUserFromRoom all_up "dev" "bob" st_alice).2 "dev" =
   members st_alice "dev").
Proof.
  destruct (join_leave_idempotent all_up "dev" "alice" st_alice eq_refl eq_refl)
    as (Hjoin & _ & _).
  destruct (join_leave_idempotent all_up "dev" "bob" st_alice eq_refl eq_refl)
    as (_ & Hleave & _).
  split.
  - destruct Hjoin as [Hok Hsame]; [by vm_compute|]. split; [exact Hok|apply Hsame].
  - destruct Hleave as [Hok Hsame]; [by vm_compute|]. split; [exact Hok|apply Hsame].
Defined.

(** C6, as stated, fails: alice is already a member of "dev"; a join (which
    adds nothing) followed by a leave removes her, so the set is not the one
    before the join. *)
Lemma join_leave_drops_earlier_member :
  let st' := (removeUserFromRoom all_up "dev" "alice"
                (addUserToRoom all_up "dev" "alice" st_alice).2).2 in
  members st_alice "dev" = {["alice"]} ∧
  members st' "dev" = ∅ ∧
  members st' "dev" ≠ members st_alice "dev".
Proof. vm_compute. repeat split; discriminate. Qed.

(** C6, amended. When the identity is not a member of the room before the
    join, a join followed by a leave of the same identity restores every
    membership set. *)
Theorem join_leave_restores (e1 e2 : env) (room username : string) (st : state) :
  username ∉ members st room →
  cli_ok e1 = true → cli_ok e2 = true →
  ∀ r, members (removeUserFromRoom e2 room username
                  (addUserToRoom e1 room username st).2).2 r =
       members st r.
Proof.
  intros Hnin H1 H2 r. rewrite members_leave by done.
  destruct (decide (room = r)) as [<-|Hr]; rewrite members_join by done.
  - rewrite decide_True by done. set_solver.
  - by rewrite decide_False.
Qed.

Lemma join_leave_restores_witness :
  members (removeUserFromRoom all_up "dev" "bob"
             (addUserToRoom all_up "dev" "bob" st_alice).2).2 "dev" =
  members st_alice "dev".
Proof.
  apply (join_leave_restores all_up all_up "dev" "bob" st_alice);
    [by vm_compute | reflexivity | reflexivity].
Defined.

(** ** The message listener, case by case *)

Section OnMessage.

Variables (e : env) (ws : nat) (room username : string).

Lemma strict_eq_str_true (v : jsval) (s : string) :
  strict_eq_str v s = true ↔ v = Some (JStr s).
Proof.
  destruct v as [[]|]; simpl; try (split; [discriminate|congruence]).
  rewrite String.eqb_eq. split; congruence.
Qed.

Lemma prop_Some_object (v : json) (k : string) (x : json) :
  prop v k = Some x → ∃ props, v = JObj props.
Proof. destruct v; try discriminate. eauto. Qed.

Lemma on_message_unparseable (st : state) :
  on_message e ws room username None st = (Ok tt, add_error "message error:" st).
Proof. reflexivity. Qed.

Lemma on_message_null (st : state) :
  on_message e ws room username (Some JNull) st =
  (Ok tt, add_error "message error:" st).
Proof. reflexivity. Qed.

Ltac on_message_kind v H :=
  destruct v as [| | | | |props]; try discriminate H; simpl in H;
  unfold on_message, try_catch, bind, JSON_parse, type_is, get, ret,
    pub_publish, Message_create, ws_send, modify; simpl; rewrite ?H; simpl.

Lemma on_message_signal (v : json) (kind : string) (st : state) :
  kind ∈ ["webrtc-offer"; "webrtc-answer"; "webrtc-ice"] →
  prop v "type" = Some (JStr kind) →
  on_message e ws room username (Some v) st =
  (Ok tt,
   if pub_ok e
   then add_published (redisRoomChannel room) (signal room username v) st
   else add_error "message error:" st).
Proof.
  intros Hk H. rewrite !elem_of_cons in Hk.
  destruct Hk as [->|[->|[->|Hk]]]; [| | |by apply elem_of_nil in Hk];
    on_message_kind v H; by destruct (pub_ok e).
Qed.

Lemma on_message_message (v : json) (st : state) :
  prop v "type" = Some (JStr "message") →
  on_message e ws room username (Some v) st =
  (Ok tt,
   if db_ok e then
     let st1 := add_stored (messageDoc e room username (prop v "messageType")
                              (prop v "text")) st in
     if pub_ok e
     then add_published (redisRoomChannel room)
            (chatMessage e room username (prop v "messageType") (prop v "text")) st1
     else add_error "message error:" st1
   else add_error "message error:" st).
Proof.
  intros H. on_message_kind v H. by destruct (db_ok e), (pub_ok e).
Qed.

Lemma on_message_ping (v : json) (st : state) :
  prop v "type" = Some (JStr "ping") →
  on_message e ws room username (Some v) st = (Ok tt, add_sent ws (pong e) st).
Proof.
  intros H. by on_message_kind v H.
Qed.

Lemma on_message_other (v : json) (st : state) :
  recognised v = false →
  on_message e ws room username (Some v) st =
  (Ok tt, match v with JNull => add_error "message error:" st | _ => st end).
Proof.
  unfold recognised, recognised_kinds. simpl. rewrite !orb_false_iff.
  intros (H1 & H2 & H3 & H4 & H5 & _).
  destruct v as [| | | | |props]; try reflexivity.
  simpl in *.
  unfold on_message, try_catch, bind, JSON_parse, type_is, get, ret; simpl.
  by rewrite H1, H2, H3, H4, H5.
Qed.

End OnMessage.

Lemma step_message (e : env) (st : state) (ws : nat) (room username : string)
    (data : option json) :
  joined st ws room username →
  step e (WsMessage ws data) st = run (on_message e ws room username data) st.
Proof. unfold joined. intros H. simpl. by rewrite H. Qed.

(** ** Inbound frames *)

(** C9. A ping from a joined session makes the listener call [ws.send] once,
    on the same socket, with a pong carrying [Date.now()]; nothing else
    changes, so nothing is published. *)
Theorem ping_answered_once (e : env) (st : state) (ws : nat) (room username : string)
    (v : json) :
  joined st ws room username →
  prop v "type" = Some (JStr "ping") →
  let st' := step e (WsMessage ws (Some v)) st in
  st' = add_sent ws (pong e) st ∧
  sent st' = sent st ++ [(ws, JObj [("type", JStr "pong"); ("ts", JNum (now e))])] ∧
  published st' = published st.
Proof.
  intros Hj Hv. cbv zeta. rewrite (step_message e st ws room username) by done.
  unfold run. by rewrite on_message_ping.
Qed.

Lemma ping_answered_once_witness :
  sent (step all_up (WsMessage 1%nat (Some ping)) st_alice) =
  sent st_alice ++ [(1%nat, JObj [("type", JStr "pong"); ("ts", JNum 1700000000000)])].
Proof.
  apply (ping_answered_once all_up st_alice 1%nat "dev" "alice" ping);
    reflexivity.
Defined.

(** C10. A parsed frame of none of the five kinds changes nothing the
    clients, the bus, the history or the presence sets can see; unless the
    frame is [null], whose property read throws and is logged, the state is
    left as it was. *)
Theorem unrecognised_ignored (e : env) (st : state) (ws : nat) (v : json) :
  recognised v = false →
  let st' := step e (WsMessage ws (Some v)) st in
  sent st' = sent st ∧ published st' = published st ∧ stored st' = stored st ∧
  clients st' = clients st ∧ listeners st' = listeners st ∧
  users st' = users st ∧ readyOpen st' = readyOpen st ∧
  unhandled st' = unhandled st ∧
  (v ≠ JNull → st' = st).
Proof.
  intros Hv. simpl. destruct (listeners st !! ws) as [[room username]|] eqn:Hl;
    [|done].
  unfold run. rewrite on_message_other by done. by destruct v.
Qed.

Lemma unrecognised_ignored_witness :
  step all_up (WsMessage 1%nat (Some typing)) st_alice = st_alice.
Proof.
  apply (unrecognised_ignored all_up st_alice 1%nat typing); [reflexivity|discriminate].
Defined.

(** C1, as stated, fails: with the history append rejecting, the chat
    message of a joined session is not published; only the log grows. *)
Lemma message_lost_when_history_fails :
  let st' := step history_down (WsMessage 1%nat (Some hi)) st_alice in
  joined st_alice 1%nat "dev" "alice" ∧
  published st' = published st_alice ∧
  st' = add_error "message error:" st_alice.
Proof. repeat split. Qed.

(** C1, amended. The append and the publish run in sequence inside one
    [try]: when the append rejects, the failure is logged and the chat message
    is neither published nor stored; when it resolves (and Redis accepts the
    publish) the message, with its server-assigned id and timestamp, the
    sender and the room, is stored and then published on the room's channel. *)
Theorem message_published_after_append (e : env) (st : state) (ws : nat)
    (room username : string) (v : json) :
  joined st ws room username →
  prop v "type" = Some (JStr "message") →
  let st' := step e (WsMessage ws (Some v)) st in
  let chat := chatMessage e room username (prop v "messageType") (prop v "text") in
  (db_ok e = false →
     published st' = published st ∧ stored st' = stored st ∧
     sent st' = sent st ∧ unhandled st' = unhandled st ∧
     errors st' = errors st ++ ["message error:"]) ∧
  (db_ok e = true → pub_ok e = true →
     published st' = published st ++ [(redisRoomChannel room, chat)] ∧
     stored st' =
       stored st ++ [messageDoc e room username (prop v "messageType") (prop v "text")] ∧
     errors st' = errors st) ∧
  (prop chat "id" = Some (JStr (uuid e)) ∧ prop chat "ts" = Some (JNum (now e)) ∧
   prop chat "user" = Some (JStr username) ∧ prop chat "room" = Some (JStr room)).
Proof.
  intros Hj Hv. cbv zeta. rewrite (step_message e st ws room username) by done.
  unfold run. rewrite on_message_message by done. simpl.
  split; [|split; [|done]].
  - by intros ->.
  - by intros -> ->.
Qed.

Lemma message_published_after_append_witness :
  published (step history_down (WsMessage 1%nat (Some hi)) st_alice) =
    published st_alice ∧
  published (step all_up (WsMessage 1%nat (Some hi)) st_alice) =
    published st_alice ++
      [("room:dev:channel",
        chatMessage all_up "dev" "alice" (Some (JStr "text")) (Some (JStr "hi")))].
Proof.
  split.
  - destruct (message_published_after_append history_down st_alice 1%nat
                "dev" "alice" hi eq_refl eq_refl) as (H & _ & _).
    by destruct (H eq_refl) as (Hp & _).
  - destruct (message_published_after_append all_up st_alice 1%nat
                "dev" "alice" hi eq_refl eq_refl) as (_ & H & _).
    by destruct (H eq_refl eq_refl) as (Hp & _).
Defined.

(** C2, as stated, fails: a [message] frame without [messageType] is not
    dropped; it is published with [messageType] "text". *)
Lemma message_without_messageType_published :
  let st' := step all_up (WsMessage 1%nat (Some hi_without_messageType)) st_alice in
  joined st_alice 1%nat "dev" "alice" ∧
  prop hi_without_messageType "messageType" = None ∧
  published st' =
    published st_alice ++
      [("room:dev:channel",
        JObj [("id", JStr "0b5e6f0a-0001"); ("type", JStr "message");
              ("messageType", JStr "text"); ("room", JStr "dev");
              ("user", JStr "alice"); ("text", JStr "hi");
              ("ts", JNum 1700000000000)])].
Proof. repeat split. Qed.

(** C2, amended. A frame that is not parseable as JSON is dropped: nothing
    is published, sent or stored, nothing is left uncaught, the failure is
    logged, the session stays registered with its socket as it was, and a
    later ping on it is answered.  A [message] frame without [messageType] is
    not dropped: [messageType] defaults to "text" and the message is stored
    and published like any other. *)
Theorem malformed_frame (e : env) (st : state) (ws : nat) (room username : string) :
  joined st ws room username →
  (let st' := step e (WsMessage ws None) st in
   published st' = published st ∧ sent st' = sent st ∧ stored st' = stored st ∧
   unhandled st' = unhandled st ∧ errors st' = errors st ++ ["message error:"] ∧
   joined st' ws room username ∧ clients st' = clients st ∧
   readyOpen st' = readyOpen st ∧
   ∀ e' v, prop v "type" = Some (JStr "ping") →
           sent (step e' (WsMessage ws (Some v)) st') = sent st ++ [(ws, pong e')]) ∧
  (∀ v, prop v "type" = Some (JStr "message") →
        prop v "messageType" = None →
        db_ok e = true → pub_ok e = true →
        let chat := chatMessage e room username None (prop v "text") in
        published (step e (WsMessage ws (Some v)) st) =
          published st ++ [(redisRoomChannel room, chat)] ∧
        prop chat "messageType" = Some (JStr "text")).
Proof.
  intros Hj. split.
  - cbv zeta. rewrite (step_message e st ws room username) by done.
    unfold run. rewrite on_message_unparseable. repeat split; try done.
    intros e' v Hv.
    rewrite (step_message e' _ ws room username) by done.
    unfold run. by rewrite on_message_ping.
  - intros v Hv Hmt Hdb Hpub. cbv zeta.
    rewrite (step_message e st ws room username) by done.
    unfold run. rewrite on_message_message by done.
    by rewrite Hdb, Hpub, Hmt.
Qed.

Lemma malformed_frame_witness :
  published (step all_up (WsMessage 1%nat None) st_alice) = published st_alice ∧
  joined (step all_up (WsMessage 1%nat None) st_alice) 1%nat "dev" "alice".
Proof.
  destruct (malformed_frame all_up st_alice 1%nat "dev" "alice" eq_refl)
    as [(Hp & _ & _ & _ & _ & Hj & _) _].
  split; [exact Hp | exact Hj].
Defined.

(** ** Bus delivery *)

Section FanOut.

Variables (room : jsval) (msg : json).

(** The loop over [clients.entries()] sends [msg] once for each entry that
    passes the test, in the order of the entries. *)
Lemma fan_out_loop (entries : list (nat * meta)) (st : state) :
  for_each entries
    (fun '(ws, m) =>
       ok <- gets (fun st => forwards st room ws m) ;;
       if ok then ws_send ws msg else ret tt) st =
  (Ok tt,
   add_sents ((fun p => (p.1, msg)) <$>
                filter (fun p => forwards st room p.1 p.2 = true) entries) st).
Proof.
  set (body := fun '(ws, m) =>
       ok <- gets (fun st => forwards st room ws m) ;;
       if ok then ws_send ws msg else ret tt).
  assert (Hgen : ∀ frames,
    for_each entries body (add_sents frames st) =
    (Ok tt,
     add_sents (frames ++ ((fun p => (p.1, msg)) <$>
                  filter (fun p => forwards st room p.1 p.2 = true) entries)) st)).
  { induction entries as [|[ws m] rest IH]; intros frames.
    - simpl. by rewrite app_nil_r.
    - rewrite filter_cons. cbn [for_each fst snd]. unfold bind at 1. unfold body at 1.
      unfold bind, gets, ws_send, modify, ret.
      change (forwards (add_sents frames st) room ws m)
        with (forwards st room ws m).
      destruct (forwards st room ws m) eqn:Hf.
      + rewrite decide_True by done.
        replace (add_sent ws msg (add_sents frames st))
          with (add_sents (frames ++ [(ws, msg)]) st)
          by (unfold add_sent, add_sents; simpl; by rewrite app_assoc).
        rewrite IH, fmap_cons. by rewrite <- app_assoc.
      + rewrite decide_False by done. apply IH. }
  specialize (Hgen []). simpl in Hgen. rewrite <- Hgen. f_equal.
  unfold add_sents. destruct st. simpl. by rewrite app_nil_r.
Qed.

End FanOut.

(** Among the frames sent for the entries of a map, those for one socket. *)
Lemma sent_for_socket (f : nat → meta → bool) (msg : json)
    (entries : list (nat * meta)) (ws : nat) :
  NoDup entries.*1 →
  snd <$> filter (fun p => p.1 = ws)
            ((fun p => (p.1, msg)) <$> filter (fun p => f p.1 p.2 = true) entries) =
  match list_find (fun p => p.1 = ws) entries with
  | Some (_, (_, m)) => if f ws m then [msg] else []
  | None => []
  end.
Proof.
  induction entries as [|[w m] rest IH]; intros Hnd; [done|].
  apply NoDup_cons in Hnd as [Hw Hnd]. specialize (IH Hnd).
  rewrite filter_cons. cbn [fst snd list_find].
  destruct (decide (w = ws)) as [->|Hne].
  - assert (Hrest : list_find (fun p : nat * meta => p.1 = ws) rest = None).
    { apply list_find_None, Forall_forall. intros [w' m'] Hin Heq.
      simpl in Heq. subst. apply Hw, list_elem_of_fmap. by exists (ws, m'). }
    rewrite Hrest in IH. simpl.
    destruct (f ws m).
    + rewrite decide_True by done. rewrite fmap_cons, filter_cons. simpl.
      rewrite decide_True by done. rewrite fmap_cons. by rewrite IH.
    + rewrite decide_False by done. exact IH.
  - simpl. destruct (list_find _ rest) as [[i [w' m']]|] eqn:Hfind; simpl;
      (destruct (decide (f w m = true));
       [rewrite fmap_cons, filter_cons; simpl; rewrite decide_False by done|];
       exact IH).
Qed.

Lemma list_find_entries (cs : gmap nat meta) (ws : nat) :
  (snd <$> list_find (fun p : nat * meta => p.1 = ws) (map_to_list cs)) =
  (fun m => (ws, m)) <$> cs !! ws.
Proof.
  destruct (list_find _ _) as [[i [w m]]|] eqn:Hfind; simpl.
  - apply list_find_Some in Hfind as (Hi & Hw & _). simpl in Hw. subst.
    apply list_elem_of_lookup_2, elem_of_map_to_list in Hi. by rewrite Hi.
  - destruct (cs !! ws) as [m|] eqn:Hm; [|done].
    apply elem_of_map_to_list in Hm.
    eapply list_find_None, Forall_forall in Hfind; [|exact Hm]. done.
Qed.

Lemma sub_on_message_eq (channel : string) (msg : json) (st : state) :
  sub_on_message channel (Some msg) st =
  match msg with
  | JNull => (Throw "TypeError", st)
  | _ =>
      (Ok tt,
       add_sents ((fun p => (p.1, msg)) <$>
                    filter (fun p => forwards st (prop msg "room") p.1 p.2 = true)
                      (map_to_list (clients st))) st)
  end.
Proof.
  destruct msg; [reflexivity|..];
    match goal with
    | |- sub_on_message _ (Some ?m) _ = _ =>
        exact (fan_out_loop (prop m "room") m (map_to_list (clients st)) st)
    end.
Qed.

Lemma sub_on_message_sent_to (channel : string) (msg : json) (st : state) (ws : nat) :
  let st' := run (sub_on_message channel (Some msg)) st in
  sent_to st' ws = sent_to st ws ++ forwarded st msg ws ∧
  published st' = published st ∧ clients st' = clients st ∧
  readyOpen st' = readyOpen st.
Proof.
  cbv zeta. unfold run. rewrite sub_on_message_eq.
  assert (Hsel :
    snd <$> filter (fun p => p.1 = ws)
              ((fun p => (p.1, msg)) <$>
                 filter (fun p => forwards st (prop msg "room") p.1 p.2 = true)
                   (map_to_list (clients st))) =
    forwarded st msg ws).
  { rewrite sent_for_socket by apply NoDup_fst_map_to_list.
    unfold forwarded.
    pose proof (list_find_entries (clients st) ws) as Hfind.
    destruct (list_find _ _) as [[i [w m]]|], (clients st !! ws);
      simpl in Hfind; try discriminate Hfind; [|done].
    by injection Hfind as -> ->. }
  destruct msg as [| | | | |props];
    try (repeat split; unfold sent_to; simpl;
         rewrite filter_app, fmap_app; f_equal; exact Hsel).
  repeat split. unfold forwarded, sent_to. simpl.
  destruct (clients st !! ws); by rewrite app_nil_r.
Qed.

(** C5. An event received from the bus is sent, as it is, exactly once to
    every registered socket whose session's room is the event's room and
    whose [readyState] is OPEN; it is sent to no socket registered for
    another room, to no socket that is not open and to no socket that is not
    registered; nothing is published.  The frame sent is the event itself, so
    its id, text, kind and timestamp are those of the event.  A bus message
    that does not parse is sent to nobody. *)
Theorem bus_event_fanned_out (e : env) (channel : string) (msg : json)
    (st : state) (ws : nat) (m : meta) :
  channel ∈ subscriptions st →
  clients st !! ws = Some m →
  let st' := step e (SubMessage channel (Some msg)) st in
  (prop msg "room" = Some (JStr (meta_room m)) → ws ∈ readyOpen st →
     sent_to st' ws = sent_to st ws ++ [msg]) ∧
  (prop msg "room" ≠ Some (JStr (meta_room m)) → sent_to st' ws = sent_to st ws) ∧
  (ws ∉ readyOpen st → sent_to st' ws = sent_to st ws) ∧
  (∀ ws', clients st !! ws' = None → sent_to st' ws' = sent_to st ws') ∧
  published st' = published st ∧
  sent (step e (SubMessage channel None) st) = sent st.
Proof.
  intros Hsub Hm. cbv zeta. unfold step. rewrite bool_decide_eq_true_2 by done.
  pose proof (sub_on_message_sent_to channel msg st) as Hrun. cbv zeta in Hrun.
  split; [|split; [|split; [|split; [|split; [|done]]]]].
  - intros Hroom Hopen. destruct (Hrun ws) as (-> & _). unfold forwarded, forwards.
    rewrite Hm. apply strict_eq_str_true in Hroom. rewrite Hroom.
    by rewrite bool_decide_eq_true_2.
  - intros Hroom. destruct (Hrun ws) as (-> & _). unfold forwarded, forwards.
    rewrite Hm. destruct (strict_eq_str _ _) eqn:Heq.
    + by apply strict_eq_str_true in Heq.
    + simpl. by rewrite app_nil_r.
  - intros Hclosed. destruct (Hrun ws) as (-> & _). unfold forwarded, forwards.
    rewrite Hm, (bool_decide_eq_false_2 _ Hclosed), andb_false_r.
    by rewrite app_nil_r.
  - intros ws' Hnone. destruct (Hrun ws') as (-> & _). unfold forwarded.
    by rewrite Hnone, app_nil_r.
  - by destruct (Hrun ws) as (_ & -> & _).
Qed.

Lemma bus_event_fanned_out_witness :
  let st' := step all_up (SubMessage "room:dev:channel" (Some hi_event)) st_three in
  sent_to st' 2%nat = sent_to st_three 2%nat ++ [hi_event] ∧
  sent_to st' 3%nat = sent_to st_three 3%nat.
Proof.
  split.
  - destruct (bus_event_fanned_out all_up "room:dev:channel" hi_event st_three 2%nat
                (Meta "0b5e6f0a-0001" "dev" "bob")) as (H & _);
      [by vm_compute | by vm_compute |].
    apply H; [reflexivity | by vm_compute].
  - destruct (bus_event_fanned_out all_up "room:dev:channel" hi_event st_three 3%nat
                (Meta "0b5e6f0a-0001" "ops" "bob")) as (_ & H & _);
      [by vm_compute | by vm_compute |].
    apply H. discriminate.
Defined.

(** C8. Once [ensureSubscribed] has subscribed to the channel of a room, a
    second call for that room returns without calling [sub.subscribe] and
    leaves the state as it was, whatever Redis would have answered; an event
    then delivered on the channel adds at most one frame on any socket. *)
Theorem subscribe_idempotent (e e' : env) (room : string) (st : state) :
  sub_ok e = true →
  let st1 := (ensureSubscribed e room st).2 in
  redisRoomChannel room ∈ subscribedRooms st1 ∧
  ensureSubscribed e' room st1 = (Ok tt, st1) ∧
  ∀ (msg : json) (ws : nat),
    let st2 := step e' (SubMessage (redisRoomChannel room) (Some msg)) st1 in
    ∃ copies, sent_to st2 ws = sent_to st1 ws ++ copies ∧ (length copies ≤ 1)%nat.
Proof.
  intros Hok. cbv zeta.
  assert (Hin : redisRoomChannel room ∈ subscribedRooms (ensureSubscribed e room st).2).
  { unfold ensureSubscribed, bind, gets, sub_subscribe, modify. rewrite Hok.
    destruct (bool_decide _) eqn:Hb; simpl.
    - by apply bool_decide_eq_true in Hb.
    - set_solver. }
  split; [exact Hin|]. split.
  - unfold ensureSubscribed at 1. unfold bind, gets.
    by rewrite (bool_decide_eq_true_2 _ Hin).
  - intros msg ws. unfold step. destruct (bool_decide _).
    + destruct (sub_on_message_sent_to (redisRoomChannel room) msg
                  (ensureSubscribed e room st).2 ws) as (-> & _).
      eexists. split; [reflexivity|]. unfold forwarded.
      destruct (clients _ !! ws); [destruct (forwards _ _ _ _)|]; simpl; lia.
    + exists []. split; [by rewrite app_nil_r | simpl; lia].
Qed.

Lemma subscribe_idempotent_witness :
  ensureSubscribed presence_down "dev" (ensureSubscribed all_up "dev" st_alice).2 =
  (Ok tt, (ensureSubscribed all_up "dev" st_alice).2).
Proof.
  by destruct (subscribe_idempotent all_up presence_down "dev" st_alice eq_refl)
    as (_ & H & _).
Defined.

(** ** The handshake *)

Ltac unfold_connection :=
  unfold step, run, connection, ensureSubscribed, addUserToRoom,
    sub_subscribe, cli_sadd, cli_smembers, pub_publish, ws_send, ws_close,
    console_error, try_catch, bind, gets, modify, ret, throw.

Lemma authenticated_Some (e : env) (req : request) (username : string) :
  authenticated e req = Some username →
  token_missing req = false ∧
  jwt_verify e (default EmptyString (req_token req)) = Some username.
Proof. unfold authenticated. by destruct (token_missing req). Qed.

Lemma authenticated_None (e : env) (req : request) :
  authenticated e req = None →
  token_missing req = true ∨
  (token_missing req = false ∧ jwt_verify e (default EmptyString (req_token req)) = None).
Proof. unfold authenticated. destruct (token_missing req); auto. Qed.

(** A handshake that does not authenticate registers nothing. *)
Lemma connection_rejected (e : env) (ws : nat) (req : request) (st : state) :
  authenticated e req = None →
  let st' := step e (Connection ws req) st in
  clients st' = clients st ∧ listeners st' = listeners st ∧ users st' = users st ∧
  (ws ∉ readyOpen st') ∧
  (∃ message, sent st' = sent st ++ [(ws, error_event message)]).
Proof.
  intros Hauth. cbv zeta.
  destruct (authenticated_None e req Hauth) as [Ht|[Ht Hv]];
    unfold_connection; rewrite Ht, ?Hv; simpl;
    (repeat split; [set_solver | eauto]).
Qed.

(** A handshake that authenticates, with Redis answering, joins the room. *)
Lemma connection_joined (e : env) (ws : nat) (req : request) (username : string)
    (st : state) :
  authenticated e req = Some username →
  services_up e →
  let st' := step e (Connection ws req) st in
  clients st' = <[ws := Meta (uuid e) (room_of req) username]> (clients st) ∧
  listeners st' = <[ws := (room_of req, username)]> (listeners st) ∧
  users st' = sadd (redisRoomUsersKey (room_of req)) username (users st).
Proof.
  intros Hauth (Hs & Hc & Hp). cbv zeta.
  destruct (authenticated_Some e req username Hauth) as [Ht Hv].
  unfold_connection. rewrite Ht, Hv, Hs, Hc, Hp. simpl.
  by case_bool_decide.
Qed.

(** C4, on the code.  When the handshake has authenticated and the presence
    store rejects the join, the listener only logs: the socket stays
    registered in [clients] and OPEN, no frame (so no error event) is sent on
    it, no listener is registered for it, and the presence sets are as they
    were. *)
Theorem join_failure_only_logged (e : env) (ws : nat) (req : request)
    (username : string) (st : state) :
  authenticated e req = Some username →
  cli_ok e = false →
  let st' := step e (Connection ws req) st in
  clients st' !! ws = Some (Meta (uuid e) (room_of req) username) ∧
  ws ∈ readyOpen st' ∧
  sent st' = sent st ∧
  listeners st' = listeners st ∧
  users st' = users st ∧
  errors st' = errors st ++ ["WS connection error:"].
Proof.
  intros Hauth Hc. cbv zeta.
  destruct (authenticated_Some e req username Hauth) as [Ht Hv].
  unfold_connection. rewrite Ht, Hv, Hc. simpl.
  case_bool_decide; simpl; [|destruct (sub_ok e); simpl];
    (repeat split; [by rewrite lookup_insert_eq | set_solver]).
Qed.

Lemma join_failure_only_logged_witness :
  let st' := step presence_down (Connection 1%nat alice_dev) init in
  clients st' !! 1%nat = Some (Meta "0b5e6f0a-0003" "dev" "alice") ∧
  1%nat ∈ readyOpen st' ∧
  sent st' = [] ∧
  listeners st' = ∅ ∧
  users st' = ∅ ∧
  errors st' = ["WS connection error:"].
Proof.
  apply (join_failure_only_logged presence_down 1%nat alice_dev "alice" init);
    reflexivity.
Defined.

(** ** Membership and open sessions *)

Lemma elem_of_open_identities (st : state) (room username : string) :
  username ∈ open_identities st room ↔
  ∃ ws id, clients st !! ws = Some (Meta id room username).
Proof.
  unfold open_identities. rewrite elem_of_list_to_set, list_elem_of_fmap. split.
  - intros (m & -> & Hm). apply list_elem_of_filter in Hm as [Hr Hm].
    apply list_elem_of_fmap in Hm as ([ws m'] & -> & Hin).
    apply elem_of_map_to_list in Hin. exists ws, (meta_id m').
    destruct m'; simpl in *. by subst.
  - intros (ws & id & Hws). exists (Meta id room username). split; [done|].
    apply list_elem_of_filter. split; [done|].
    apply list_elem_of_fmap. exists (ws, Meta id room username). split; [done|].
    by apply elem_of_map_to_list.
Qed.

Lemma consistent_frame (st st' : state) :
  clients st' = clients st → listeners st' = listeners st → users st' = users st →
  consistent st → consistent st'.
Proof.
  unfold consistent, members. by intros -> -> ->.
Qed.

Lemma consistent_init : consistent init.
Proof.
  unfold consistent, members, smembers, init; simpl. repeat split.
  - intros ws room username H. by rewrite lookup_empty in H.
  - intros ws1 ws2 id1 id2 room username H. by rewrite lookup_empty in H.
  - intros H. by rewrite lookup_empty in H.
  - intros (ws & id & H). by rewrite lookup_empty in H.
Qed.

Lemma on_message_frame (e : env) (ws : nat) (room username : string)
    (data : option json) (st : state) :
  let st' := run (on_message e ws room username data) st in
  clients st' = clients st ∧ listeners st' = listeners st ∧ users st' = users st.
Proof.
  cbv zeta. unfold run.
  destruct data as [v|]; [|by rewrite on_message_unparseable].
  destruct (recognised v) eqn:Hrec.
  - unfold recognised, recognised_kinds in Hrec. simpl in Hrec.
    rewrite !orb_true_iff, !strict_eq_str_true in Hrec.
    destruct Hrec as [H|[H|[H|[H|[H|H]]]]]; [| | | | |done].
    1-3: match type of H with
         | _ = Some (JStr ?kind) =>
             rewrite (on_message_signal e ws room username v kind st)
               by (first [exact H | set_solver]);
             by destruct (pub_ok e)
         end.
    + rewrite on_message_message by done. by destruct (db_ok e), (pub_ok e).
    + by rewrite on_message_ping.
  - rewrite on_message_other by done. by destruct v.
Qed.

Lemma sub_on_message_frame (channel : string) (message : option json) (st : state) :
  let st' := run (sub_on_message channel message) st in
  clients st' = clients st ∧ listeners st' = listeners st ∧ users st' = users st.
Proof.
  cbv zeta. unfold run. destruct message as [msg|]; [|done].
  rewrite sub_on_message_eq. by destruct msg.
Qed.

(** The close listener of a joined socket, Redis answering. *)
Lemma close_joined (e : env) (ws : nat) (room username : string) (st : state) :
  joined st ws room username →
  cli_ok e = true → pub_ok e = true →
  let st' := step e (WsClose ws) st in
  clients st' = delete ws (clients st) ∧
  listeners st' = delete ws (listeners st) ∧
  users st' = srem (redisRoomUsersKey room) username (users st).
Proof.
  unfold joined. intros Hj Hc Hp. cbv zeta. unfold step. simpl. rewrite Hj.
  unfold run, on_close, removeUserFromRoom, cli_srem, cli_smembers, pub_publish,
    bind, gets, modify. by rewrite Hc, Hp.
Qed.

Lemma close_not_joined (e : env) (ws : nat) (st : state) :
  listeners st !! ws = None →
  let st' := step e (WsClose ws) st in
  clients st' = clients st ∧ listeners st' = listeners st ∧ users st' = users st.
Proof. intros Hl. cbv zeta. unfold step. simpl. by rewrite Hl. Qed.

Lemma consistent_connection (e : env) (ws : nat) (req : request) (st : state) :
  consistent st →
  services_up e →
  clients st !! ws = None →
  (∀ username, authenticated e req = Some username →
               username ∉ open_identities st (room_of req)) →
  consistent (step e (Connection ws req) st).
Proof.
  intros (I1 & I1' & I2 & I3) Hup Hfresh Huniq.
  destruct (authenticated e req) as [username|] eqn:Hauth.
  - destruct (connection_joined e ws req username st Hauth Hup) as (Hc & Hl & Hu).
    specialize (Huniq username eq_refl). rewrite elem_of_open_identities in Huniq.
    set (room := room_of req) in *.
    unfold consistent, members. rewrite Hc, Hl, Hu. split; [|split; [|split]].
    + intros ws0 r u0 H. destruct (decide (ws = ws0)) as [<-|Hne].
      * rewrite lookup_insert_eq in H. injection H as <- <-.
        exists (uuid e). by rewrite lookup_insert_eq.
      * rewrite lookup_insert_ne in H by done. rewrite lookup_insert_ne by done.
        eauto.
    + intros ws0 H. destruct (decide (ws = ws0)) as [<-|Hne].
      * by rewrite lookup_insert_eq in H.
      * rewrite lookup_insert_ne in H by done. rewrite lookup_insert_ne by done.
        auto.
    + intros ws1 ws2 id1 id2 r u0 H1 H2.
      destruct (decide (ws = ws1)) as [<-|Hne1], (decide (ws = ws2)) as [->|Hne2];
        try done.
      * rewrite lookup_insert_eq in H1. injection H1 as <- <- <-.
        rewrite lookup_insert_ne in H2 by done. exfalso. apply Huniq. eauto.
      * rewrite lookup_insert_eq in H2. injection H2 as <- <- <-.
        rewrite lookup_insert_ne in H1 by done. exfalso. apply Huniq. eauto.
      * rewrite lookup_insert_ne in H1, H2 by done. eauto.
    + intros r u0. rewrite smembers_sadd.
      destruct (decide (redisRoomUsersKey room = redisRoomUsersKey r)) as [Heq|Hne].
      * apply redisRoomUsersKey_inj in Heq as <-.
        rewrite elem_of_union, elem_of_singleton.
        fold (members st room). rewrite I3. split.
        -- intros [->|(ws0 & id & H)].
           ++ exists ws, (uuid e). by rewrite lookup_insert_eq.
           ++ exists ws0, id. rewrite lookup_insert_ne; [done|].
              intros ->. congruence.
        -- intros (ws0 & id & H). destruct (decide (ws = ws0)) as [<-|Hne].
           ++ rewrite lookup_insert_eq in H. injection H as _ ->. by left.
           ++ rewrite lookup_insert_ne in H by done. right. eauto.
      * fold (members st r). rewrite I3.
        split; intros (ws0 & id & H); exists ws0, id.
        -- rewrite lookup_insert_ne; [done|]. intros ->. congruence.
        -- destruct (decide (ws = ws0)) as [<-|Hne0].
           ++ rewrite lookup_insert_eq in H. injection H as _ Hr _.
              by rewrite Hr in Hne.
           ++ by rewrite lookup_insert_ne in H.
  - destruct (connection_rejected e ws req st Hauth) as (Hc & Hl & Hu & _).
    by eapply consistent_frame.
Qed.

Lemma consistent_close (e : env) (ws : nat) (st : state) :
  consistent st → services_up e → consistent (step e (WsClose ws) st).
Proof.
  intros Hcons (_ & Hcli & Hpub).
  destruct (listeners st !! ws) as [[room username]|] eqn:Hjoined.
  - destruct Hcons as (I1 & I1' & I2 & I3).
    destruct (I1 _ _ _ Hjoined) as [id Hws].
    destruct (close_joined e ws room username st Hjoined Hcli Hpub)
      as (Hc & Hl & Hu).
    unfold consistent, members. rewrite Hc, Hl, Hu. split; [|split; [|split]].
    + intros ws0 r u0 H. destruct (decide (ws = ws0)) as [<-|Hne].
      * by rewrite lookup_delete_eq in H.
      * rewrite lookup_delete_ne in H by done. rewrite lookup_delete_ne by done.
        eauto.
    + intros ws0 H. destruct (decide (ws = ws0)) as [<-|Hne].
      * by rewrite lookup_delete_eq.
      * rewrite lookup_delete_ne in H by done. rewrite lookup_delete_ne by done.
        auto.
    + intros ws1 ws2 id1 id2 r u0 H1 H2.
      destruct (decide (ws = ws1)) as [<-|Hne1]; [by rewrite lookup_delete_eq in H1|].
      destruct (decide (ws = ws2)) as [<-|Hne2]; [by rewrite lookup_delete_eq in H2|].
      rewrite lookup_delete_ne in H1, H2 by done. eauto.
    + intros r u0. rewrite smembers_srem.
      destruct (decide (redisRoomUsersKey room = redisRoomUsersKey r)) as [Heq|Hne].
      * apply redisRoomUsersKey_inj in Heq as <-.
        rewrite elem_of_difference, elem_of_singleton.
        fold (members st room). rewrite I3. split.
        -- intros [(ws0 & id0 & H) Hu0]. exists ws0, id0.
           rewrite lookup_delete_ne; [done|]. intros ->. congruence.
        -- intros (ws0 & id0 & H).
           destruct (decide (ws = ws0)) as [<-|Hne];
             [by rewrite lookup_delete_eq in H|].
           rewrite lookup_delete_ne in H by done. split; [eauto|].
           intros ->. apply Hne. eauto.
      * fold (members st r). rewrite I3.
        split; intros (ws0 & id0 & H); exists ws0, id0.
        -- rewrite lookup_delete_ne; [done|]. intros ->.
           rewrite Hws in H. injection H as _ Hr _. by rewrite Hr in Hne.
        -- destruct (decide (ws = ws0)) as [<-|Hne0];
             [by rewrite lookup_delete_eq in H|].
           by rewrite lookup_delete_ne in H.
  - destruct (close_not_joined e ws st Hjoined) as (Hc & Hl & Hu).
    by eapply consistent_frame.
Qed.

Lemma single_sessions_consistent (st : state) : single_sessions st → consistent st.
Proof.
  induction 1 as [|e ws req st _ IH Hup Hfresh Huniq|e ws st _ IH Hup
                  |e ws data st _ IH|e channel message st _ IH].
  - exact consistent_init.
  - by apply consistent_connection.
  - by apply consistent_close.
  - simpl. destruct (listeners st !! ws) as [[room username]|]; [|done].
    destruct (on_message_frame e ws room username data st) as (Hc & Hl & Hu).
    by eapply consistent_frame.
  - simpl. destruct (bool_decide _); [|done].
    destruct (sub_on_message_frame channel message st) as (Hc & Hl & Hu).
    by eapply consistent_frame.
Qed.

(** C3, as stated, fails: alice holds two sessions in "dev"; when the first
    closes she is removed from the membership set although her second
    session is still registered. *)
Lemma member_dropped_at_first_close :
  let st' := step all_up (WsClose 1%nat) st_alice_twice in
  clients st' !! 2%nat = Some (Meta "0b5e6f0a-0001" "dev" "alice") ∧
  readyOpen st' = {[2%nat]} ∧
  open_identities st' "dev" = {["alice"]} ∧
  members st' "dev" = ∅ ∧
  members st' "dev" ≠ open_identities st' "dev".
Proof. vm_compute. repeat split; discriminate. Qed.

(** C3, amended. Over every sequence of connects and disconnects (with
    inbound frames and bus deliveries in between) in which no identity opens
    a session in a room where it already has one, the membership set of each
    room is exactly the set of identities with a registered session in the
    room. *)
Theorem members_are_open_identities (st : state) (room : string) :
  single_sessions st → members st room = open_identities st room.
Proof.
  intros Hss. apply single_sessions_consistent in Hss as (_ & _ & _ & I3).
  apply set_eq. intros username. by rewrite I3, elem_of_open_identities.
Qed.

Lemma members_are_open_identities_witness :
  members st_bob_alone "dev" = open_identities st_bob_alone "dev".
Proof.
  apply members_are_open_identities.
  change (single_sessions
            (step all_up (WsClose 1%nat)
               (step all_up (Connection 2%nat bob_dev)
                  (step all_up (Connection 1%nat alice_dev) init)))).
  assert (Hup : services_up all_up) by (repeat split).
  apply ss_close; [|exact Hup].
  apply ss_connection; [|exact Hup|reflexivity|].
  - apply ss_connection; [exact ss_init|exact Hup|reflexivity|].
    intros username Hauth. injection Hauth as <-. by vm_compute.
  - intros username Hauth. injection Hauth as <-. by vm_compute.
Defined.

(** * Further properties of the gateway *)

(** ** Object literals *)

Lemma assoc_obj_set (k : string) (v : json) (props : list (string * json))
    (k' : string) :
  assoc k' (obj_set k v props) = if String.eqb k' k then Some v else assoc k' props.
Proof.
  induction props as [|[k0 v0] rest IH]; simpl.
  - by destruct (String.eqb k' k).
  - destruct (String.eqb k k0) eqn:Hk; simpl.
    + apply String.eqb_eq in Hk as <-. by destruct (String.eqb k' k).
    + rewrite IH. destruct (String.eqb k' k0) eqn:Hk0; [|done].
      apply String.eqb_eq in Hk0 as ->.
      by rewrite String.eqb_sym, Hk.
Qed.

(** ** WebRTC signalling *)

(** X1. A signalling frame of a joined session is published once on the
    channel of the session's room, stamped with the session's room and
    identity whatever [room] and [from] the client wrote, with every other
    field as the client sent it; it is not stored and nothing is sent back,
    whether or not the history database answers. *)
Theorem signal_stamped (e : env) (st : state) (ws : nat)
    (room username kind : string) (v : json) :
  joined st ws room username →
  kind ∈ ["webrtc-offer"; "webrtc-answer"; "webrtc-ice"] →
  prop v "type" = Some (JStr kind) →
  pub_ok e = true →
  let st' := step e (WsMessage ws (Some v)) st in
  ∃ payload,
    published st' = published st ++ [(redisRoomChannel room, payload)] ∧
    prop payload "room" = Some (JStr room) ∧
    prop payload "from" = Some (JStr username) ∧
    (∀ k, k ≠ "room" → k ≠ "from" → prop payload k = prop v k) ∧
    stored st' = stored st ∧ sent st' = sent st ∧ errors st' = errors st.
Proof.
  intros Hj Hkind Hv Hpub. cbv zeta.
  rewrite (step_message e st ws room username) by done.
  unfold run. rewrite (on_message_signal e ws room username v kind) by done.
  rewrite Hpub. exists (signal room username v).
  destruct (prop_Some_object _ _ _ Hv) as [props ->].
  unfold signal. simpl. rewrite !assoc_obj_set. simpl.
  repeat split.
  intros k Hroom Hfrom. rewrite !assoc_obj_set.
  apply String.eqb_neq in Hroom, Hfrom. by rewrite Hroom, Hfrom.
Qed.

Lemma signal_stamped_witness :
  ∃ payload,
    published (step history_down (WsMessage 1%nat (Some offer)) st_alice) =
      published st_alice ++ [("room:dev:channel", payload)] ∧
    prop payload "room" = Some (JStr "dev") ∧
    prop payload "from" = Some (JStr "alice") ∧
    prop payload "sdp" = Some (JStr "v=0").
Proof.
  destruct (signal_stamped history_down st_alice 1%nat "dev" "alice" "webrtc-offer"
              offer) as (payload & Hp & Hroom & Hfrom & Hrest & _);
    [reflexivity | set_solver | reflexivity | reflexivity |].
  exists payload. repeat split; [exact Hp | exact Hroom | exact Hfrom |].
  by rewrite Hrest.
Defined.

(** ** Chat frames *)

(** X2. What a chat frame from a joined session causes depends only on its
    [text] and [messageType]: two frames that agree on these are handled
    alike, so an [id], [user], [room] or [ts] written by the client never
    reaches the history or the room. *)
Theorem chat_frame_text_and_kind_only (e : env) (st : state) (ws : nat)
    (room username : string) (v v' : json) :
  joined st ws room username →
  prop v "type" = Some (JStr "message") →
  prop v' "type" = Some (JStr "message") →
  prop v "text" = prop v' "text" →
  prop v "messageType" = prop v' "messageType" →
  step e (WsMessage ws (Some v)) st = step e (WsMessage ws (Some v')) st.
Proof.
  intros Hj Hv Hv' Htext Hkind.
  rewrite !(step_message e st ws room username) by done.
  unfold run. rewrite !on_message_message by done.
  by rewrite Htext, Hkind.
Qed.

Lemma chat_frame_text_and_kind_only_witness :
  step all_up (WsMessage 1%nat (Some hi_spoofed)) st_alice =
  step all_up (WsMessage 1%nat (Some hi)) st_alice.
Proof.
  apply (chat_frame_text_and_kind_only all_up st_alice 1%nat "dev" "alice");
    reflexivity.
Defined.

(** X3. Whatever an inbound frame is and whatever the services answer, the
    message listener catches every exception, changes neither the registry,
    the listeners, the presence sets, the subscriptions nor the sockets'
    states, and sends nothing except, for a ping, one pong on its own
    socket. *)
Theorem inbound_frame_contained (e : env) (st : state) (ws : nat)
    (data : option json) :
  let st' := step e (WsMessage ws data) st in
  unhandled st' = unhandled st ∧
  clients st' = clients st ∧ listeners st' = listeners st ∧
  users st' = users st ∧ readyOpen st' = readyOpen st ∧
  subscribedRooms st' = subscribedRooms st ∧
  subscriptions st' = subscriptions st ∧
  subscribe_calls st' = subscribe_calls st ∧
  (sent st' = sent st ∨ sent st' = sent st ++ [(ws, pong e)]).
Proof.
  cbv zeta. simpl.
  destruct (listeners st !! ws) as [[room username]|]; [|by repeat split; auto].
  unfold run.
  destruct data as [v|]; [|rewrite on_message_unparseable; by repeat split; auto].
  destruct (recognised v) eqn:Hrec.
  - unfold recognised, recognised_kinds in Hrec. simpl in Hrec.
    rewrite !orb_true_iff, !strict_eq_str_true in Hrec.
    destruct Hrec as [H|[H|[H|[H|[H|H]]]]]; [| | | | |done].
    1-3: match type of H with
         | _ = Some (JStr ?kind) =>
             rewrite (on_message_signal e ws room username v kind st)
               by (first [exact H | set_solver]);
             destruct (pub_ok e); by repeat split; auto
         end.
    + rewrite on_message_message by done.
      destruct (db_ok e), (pub_ok e); by repeat split; auto.
    + rewrite on_message_ping by done. by repeat split; auto.
  - rewrite on_message_other by done. destruct v; by repeat split; auto.
Qed.

(** ** The handshake and the teardown *)

(** X4. A handshake with no token, or with a token that does not verify,
    sends one error event on the socket and closes it; the socket is not
    registered, gets no listener, and neither the presence sets, the bus nor
    the subscriptions are touched. *)
Theorem handshake_rejected (e : env) (st : state) (ws : nat) (req : request) :
  authenticated e req = None →
  let st' := step e (Connection ws req) st in
  sent st' =
    sent st ++ [(ws, error_event (if token_missing req then "Token missing"
                                  else "Invalid token"))] ∧
  (ws ∉ readyOpen st') ∧
  clients st' = clients st ∧ listeners st' = listeners st ∧
  users st' = users st ∧ published st' = published st ∧
  subscribe_calls st' = subscribe_calls st ∧
  errors st' = errors st ∧ unhandled st' = unhandled st.
Proof.
  intros Hauth. cbv zeta.
  destruct (authenticated_None e req Hauth) as [Ht|[Ht Hv]];
    unfold_connection; rewrite Ht, ?Hv; simpl;
    (repeat split; set_solver).
Qed.

Lemma handshake_rejected_witness :
  let st' := step all_up (Connection 7%nat no_token) st_alice in
  sent st' = sent st_alice ++ [(7%nat, error_event "Token missing")] ∧
  clients st' = clients st_alice.
Proof.
  destruct (handshake_rejected all_up st_alice 7%nat no_token eq_refl)
    as (Hs & _ & Hc & _).
  split; [exact Hs | exact Hc].
Defined.

(** X5. A handshake that authenticates, with Redis answering, registers the
    socket and its listeners for the room, leaves the identity in the room's
    presence set, publishes the new full membership on the room's channel and
    sends the joiner one welcome frame carrying that same membership, which
    contains the joiner. *)
Theorem handshake_welcome (e : env) (st : state) (ws : nat) (req : request)
    (username : string) :
  authenticated e req = Some username →
  services_up e →
  let st' := step e (Connection ws req) st in
  let room := room_of req in
  let users := elements (members st' room) in
  username ∈ users ∧
  sent st' = sent st ++ [(ws, welcome e (uuid e) room users)] ∧
  published st' = published st ++ [(redisRoomChannel room, presence room users)] ∧
  joined st' ws room username ∧
  clients st' !! ws = Some (Meta (uuid e) room username) ∧
  ws ∈ readyOpen st' ∧
  redisRoomChannel room ∈ subscribedRooms st' ∧
  errors st' = errors st.
Proof.
  intros Hauth (Hs & Hc & Hp). cbv zeta.
  destruct (authenticated_Some e req username Hauth) as [Ht Hv].
  unfold_connection. rewrite Ht, Hv, Hs, Hc, Hp. simpl.
  unfold joined, members.
  case_bool_decide; simpl; rewrite !lookup_insert_eq;
    (split; [rewrite elem_of_elements, smembers_sadd, decide_True by done;
             set_solver|]);
    repeat split; set_solver.
Qed.

Lemma handshake_welcome_witness :
  let st' := step all_up (Connection 2%nat bob_dev) st_alice in
  sent st' =
    sent st_alice ++
      [(2%nat, welcome all_up "0b5e6f0a-0001" "dev" (elements (members st' "dev")))] ∧
  joined st' 2%nat "dev" "bob".
Proof.
  destruct (handshake_welcome all_up st_alice 2%nat bob_dev "bob" eq_refl)
    as (_ & Hs & _ & Hj & _); [by repeat split|].
  split; [exact Hs | exact Hj].
Defined.

(** X6. A connection request without a room parameter, or with an empty
    one, joins the room "global". *)
Theorem default_room_global (e : env) (st : state) (ws : nat) (req : request)
    (username : string) :
  req_room req = None ∨ req_room req = Some EmptyString →
  authenticated e req = Some username →
  services_up e →
  let st' := step e (Connection ws req) st in
  joined st' ws "global" username ∧
  username ∈ members st' "global" ∧
  redisRoomChannel "global" ∈ subscribedRooms st'.
Proof.
  intros Hroom Hauth Hup. cbv zeta.
  assert (Hglobal : room_of req = "global").
  { unfold room_of. by destruct Hroom as [->| ->]. }
  destruct (connection_joined e ws req username st Hauth Hup) as (_ & Hl & Hu).
  destruct Hup as (Hs & Hc & Hp).
  destruct (authenticated_Some e req username Hauth) as [Ht Hv].
  unfold joined, members. rewrite Hl, Hu, Hglobal, lookup_insert_eq.
  split; [done|]. split.
  - rewrite smembers_sadd, decide_True by done. set_solver.
  - unfold_connection. rewrite Ht, Hv, Hs, Hc, Hp, Hglobal. simpl.
    case_bool_decide; simpl; set_solver.
Qed.

Lemma default_room_global_witness :
  joined (step all_up (Connection 5%nat no_room) st_alice) 5%nat "global" "alice".
Proof.
  destruct (default_room_global all_up st_alice 5%nat no_room "alice")
    as (Hj & _); [by left | reflexivity | by repeat split | exact Hj].
Defined.

(** X7. When a joined socket closes it is unregistered whatever Redis
    answers.  With Redis answering, the identity leaves the room's presence
    set and the remaining membership is published on the room's channel.
    With the presence connection down, the presence sets keep the identity,
    nothing is published and the rejection is caught by nobody. *)
Theorem close_unregisters (e : env) (st : state) (ws : nat) (room username : string) :
  joined st ws room username →
  let st' := step e (WsClose ws) st in
  clients st' !! ws = None ∧ listeners st' !! ws = None ∧ (ws ∉ readyOpen st') ∧
  (cli_ok e = true → pub_ok e = true →
     (username ∉ members st' room) ∧
     published st' =
       published st ++
         [(redisRoomChannel room, presence room (elements (members st' room)))] ∧
     unhandled st' = unhandled st) ∧
  (cli_ok e = false →
     users st' = users st ∧ published st' = published st ∧
     unhandled st' = unhandled st ++ ["cli.srem rejected"]).
Proof.
  unfold joined. intros Hj. cbv zeta. unfold step. simpl. rewrite Hj.
  unfold run, on_close, removeUserFromRoom, cli_srem, cli_smembers, pub_publish,
    bind, gets, modify, throw, members.
  destruct (cli_ok e), (pub_ok e); simpl; rewrite !lookup_delete_eq;
    (repeat split; try done; try set_solver).
  rewrite smembers_srem, decide_True by done. set_solver.
Qed.

Lemma close_unregisters_witness :
  let st' := step presence_down (WsClose 1%nat) st_alice in
  clients st' !! 1%nat = None ∧ members st' "dev" = {["alice"]}.
Proof.
  destruct (close_unregisters presence_down st_alice 1%nat "dev" "alice" eq_refl)
    as (Hc & _ & _ & _ & Hdown).
  split; [exact Hc|].
  destruct (Hdown eq_refl) as (Hu & _). unfold members. rewrite Hu. by vm_compute.
Defined.

(** ** Room names, channels and keys *)

Lemma list_ascii_of_string_append (s t : string) :
  String.list_ascii_of_string (s +:+ t) =
  String.list_ascii_of_string s ++ String.list_ascii_of_string t.
Proof. induction s as [|c s IH]; simpl; [done | by rewrite IH]. Qed.

(** X8. Distinct rooms have distinct bus channels and distinct presence
    keys, whatever characters the room names contain, and no channel name is
    a presence key. *)
Theorem rooms_isolated (r1 r2 : string) :
  r1 ≠ r2 →
  redisRoomChannel r1 ≠ redisRoomChannel r2 ∧
  redisRoomUsersKey r1 ≠ redisRoomUsersKey r2 ∧
  redisRoomChannel r1 ≠ redisRoomUsersKey r2 ∧
  redisRoomChannel r1 ≠ redisRoomUsersKey r1.
Proof.
  intros Hne.
  assert (Hkinds : ∀ a b, redisRoomChannel a ≠ redisRoomUsersKey b).
  { intros a b H. unfold redisRoomChannel, redisRoomUsersKey in H.
    apply (f_equal String.list_ascii_of_string) in H.
    rewrite !list_ascii_of_string_append in H.
    change (String.list_ascii_of_string ":channel")
      with (String.list_ascii_of_string ":channe" ++
            String.list_ascii_of_string "l") in H.
    change (String.list_ascii_of_string ":users")
      with (String.list_ascii_of_string ":user" ++ String.list_ascii_of_string "s") in H.
    rewrite !app_assoc in H. apply app_inj_tail in H as [_ H]. discriminate H. }
  repeat split; try apply Hkinds.
  - intros H. by apply redisRoomChannel_inj in H.
  - intros H. by apply redisRoomUsersKey_inj in H.
Qed.

Lemma rooms_isolated_witness :
  redisRoomChannel "dev" ≠ redisRoomChannel "dev:channel" ∧
  redisRoomUsersKey "dev" ≠ redisRoomUsersKey "dev:channel".
Proof.
  destruct (rooms_isolated "dev" "dev:channel") as (H1 & H2 & _);
    [discriminate | split; [exact H1 | exact H2]].
Defined.

(** * The HTTP routes *)

(** ** The bearer token of a request *)

Lemma split_space_cons (c : Ascii.ascii) (s : string) :
  Ascii.eqb c Ascii.Space = false →
  ∃ piece pieces, split_space s = piece :: pieces ∧
                  split_space (String c s) = String c piece :: pieces.
Proof.
  intros Hc. simpl. rewrite Hc.
  destruct s as [|d s]; simpl; [by eauto|].
  destruct (Ascii.eqb d Ascii.Space); [by eauto|].
  destruct (split_space s); by eauto.
Qed.

Lemma split_space_nonempty (s : string) : split_space s ≠ [].
Proof.
  destruct s as [|c s]; simpl; [done|].
  destruct (Ascii.eqb c Ascii.Space); [done|]. by destruct (split_space s).
Qed.

(** A piece free of spaces, followed by a space, is the first piece. *)
Lemma split_space_piece (t rest : string) :
  space_free t = true →
  split_space (t +:+ String Ascii.Space rest) = t :: split_space rest.
Proof.
  induction t as [|c t IH]; simpl; intros Hfree.
  - done.
  - apply andb_true_iff in Hfree as [Hc Ht]. apply negb_true_iff in Hc.
    by rewrite Hc, (IH Ht).
Qed.

Lemma split_space_last (t : string) : space_free t = true → split_space t = [t].
Proof.
  induction t as [|c t IH]; simpl; intros Hfree; [done|].
  apply andb_true_iff in Hfree as [Hc Ht]. apply negb_true_iff in Hc.
  by rewrite Hc, (IH Ht).
Qed.

(** X9. For an Authorization header "Bearer t", with [t] free of spaces,
    the middleware verifies exactly [t]: it hands the decoded identity to the
    route when [t] verifies and answers 401 "Invalid token" when it does not.
    Whatever follows a further space in the header is ignored. *)
Theorem httpAuth_bearer (e : env) (t rest : string) :
  space_free t = true →
  let outcome :=
    match jwt_verify e t with
    | Some username => inl username
    | None => inr (Response 401 (error_body "Invalid token"))
    end in
  httpAuth e (Some ("Bearer " +:+ t)) = outcome ∧
  httpAuth e (Some ("Bearer " +:+ t +:+ String Ascii.Space rest)) = outcome.
Proof.
  intros Hfree. cbv zeta. unfold httpAuth, bearer_token.
  change ("Bearer " +:+ t) with ("Bearer" +:+ String Ascii.Space t).
  change ("Bearer " +:+ t +:+ String Ascii.Space rest)
    with ("Bearer" +:+ String Ascii.Space (t +:+ String Ascii.Space rest)).
  rewrite !split_space_piece, split_space_last by done. simpl.
  assert (Hempty : ∀ s, String.prefix EmptyString s = true) by (by intros []).
  by rewrite !Hempty.
Qed.

Lemma httpAuth_bearer_witness :
  httpAuth all_up (Some "Bearer tok-alice") = inl "alice" ∧
  httpAuth all_up (Some "Bearer tok-alice and more") = inl "alice".
Proof.
  exact (httpAuth_bearer all_up "tok-alice" "and more" eq_refl).
Defined.

(** X10. The middleware lets a request through only with a header that
    starts with "Bearer " and whose second space-separated piece verifies;
    every other request is answered 401, and without a header, or with one
    that does not start with "Bearer ", the answer is "Missing token". *)
Theorem httpAuth_gate (e : env) (authorization : option string) :
  (∀ username,
     httpAuth e authorization = inl username →
     ∃ auth token,
       authorization = Some auth ∧ String.prefix "Bearer " auth = true ∧
       bearer_token auth = Some token ∧ jwt_verify e token = Some username) ∧
  (∀ r, httpAuth e authorization = inr r → status r = 401) ∧
  ((∀ auth, authorization = Some auth → String.prefix "Bearer " auth = false) →
   httpAuth e authorization = inr (Response 401 (error_body "Missing token"))).
Proof.
  unfold httpAuth. split; [|split].
  - intros username H. destruct authorization as [auth|]; [|done].
    destruct (negb _ && String.prefix "Bearer " auth) eqn:Hcond; [|done].
    apply andb_true_iff in Hcond as [_ Hpre].
    destruct (bearer_token auth) as [token|] eqn:Htok; [|done].
    destruct (jwt_verify e token) as [u|] eqn:Hv; [|done].
    injection H as <-. by exists auth, token.
  - intros r H. destruct authorization as [auth|]; [|by injection H as <-].
    destruct (negb _ && String.prefix "Bearer " auth); [|by injection H as <-].
    destruct (bearer_token auth) as [token|]; [|by injection H as <-].
    destruct (jwt_verify e token); [done|by injection H as <-].
  - intros Hno. destruct authorization as [auth|]; [|done].
    by rewrite (Hno auth eq_refl), andb_false_r.
Qed.

Lemma httpAuth_gate_witness :
  httpAuth all_up (Some "Basic dG9rLWJvYg==") =
  inr (Response 401 (error_body "Missing token")).
Proof.
  destruct (httpAuth_gate all_up (Some "Basic dG9rLWJvYg==")) as (_ & _ & H).
  apply H. by intros auth [= <-].
Defined.

(** ** File upload *)

Lemma upload_eq (e : env) (username room : string) (f : file) (st : state) :
  room ≠ EmptyString →
  upload e username (Some room) (Some f) st =
  if db_ok e then
    let st1 := add_stored (fileDoc e room username f) st in
    if pub_ok e then
      (Ok (Response 200 (fileMessage e room username f)),
       add_published (redisRoomChannel room) (fileMessage e room username f) st1)
    else
      (Ok (Response 500 (error_body "Upload failed")),
       add_error "upload error:" st1)
  else
    (Ok (Response 500 (error_body "Upload failed")), add_error "upload error:" st).
Proof.
  intros Hroom. apply String.eqb_neq in Hroom.
  unfold upload, try_catch, bind, Message_create, pub_publish, console_error,
    modify, ret, throw.
  rewrite Hroom. by destruct (db_ok e), (pub_ok e).
Qed.

(** X11. An authenticated upload with a room and a file, the database and
    Redis answering, stores one file document, publishes the file message on
    the room's channel and answers 200 with that same message.  The message
    carries the identity of the token, the link "/files/<stored name>" and
    the file's name, size and type, and the stored document agrees with it on
    every field it has.  No session in the room is needed: the registry, the
    presence sets and the sockets are untouched. *)
Theorem upload_published (e : env) (st : state) (req : upload_request)
    (username room : string) (f : file) :
  httpAuth e (up_authorization req) = inl username →
  up_room req = Some room → room ≠ EmptyString →
  up_file req = Some f →
  db_ok e = true → pub_ok e = true →
  let out := serve e (Upload req) st in
  let msg := fileMessage e room username f in
  let doc := fileDoc e room username f in
  out.1 = Some (Response 200 msg) ∧
  stored out.2 = stored st ++ [doc] ∧
  published out.2 = published st ++ [(redisRoomChannel room, msg)] ∧
  prop msg "user" = Some (JStr username) ∧
  prop msg "room" = Some (JStr room) ∧
  prop msg "messageType" = Some (JStr "file") ∧
  prop msg "fileUrl" = Some (JStr ("/files/" +:+ file_filename f)) ∧
  (∀ k v, prop doc k = Some v → prop msg k = Some v) ∧
  clients out.2 = clients st ∧ users out.2 = users st ∧ sent out.2 = sent st ∧
  errors out.2 = errors st.
Proof.
  intros Hauth Hroom Hne Hfile Hdb Hpub. cbv zeta. unfold serve, respond.
  rewrite Hauth, Hroom, Hfile, upload_eq, Hdb, Hpub by done. simpl.
  repeat split.
  intros k v H. simpl in H.
  repeat match type of H with
         | (if String.eqb k ?key then _ else _) = _ =>
             let E := fresh "E" in
             destruct (String.eqb k key) eqn:E;
             [apply String.eqb_eq in E; subst k; exact H|]
         end.
  discriminate H.
Qed.

Lemma upload_published_witness :
  (serve all_up (Upload bob_uploads) st_alice).1 =
  Some (Response 200 (fileMessage all_up "dev" "bob" photo)).
Proof.
  by destruct (upload_published all_up st_alice bob_uploads "bob" "dev" photo)
    as (H & _).
Defined.

(** X12. An upload that the middleware rejects gets the middleware's
    response and changes nothing.  An authenticated upload without a room,
    with an empty room or without a file is answered 400 and changes nothing.
    When the history append rejects, the answer is 500, nothing is stored or
    published and the failure is logged.  When the append resolves and the
    publish rejects, the answer is 500 as well, although the file document
    has been stored. *)
Theorem upload_refused (e : env) (st : state) (req : upload_request) :
  (∀ r, httpAuth e (up_authorization req) = inr r →
        serve e (Upload req) st = (Some r, st)) ∧
  (∀ username,
     httpAuth e (up_authorization req) = inl username →
     (up_room req = None ∨ up_room req = Some EmptyString ∨ up_file req = None →
      serve e (Upload req) st =
      (Some (Response 400 (error_body "room and file are required")), st)) ∧
     (∀ room f,
        up_room req = Some room → room ≠ EmptyString → up_file req = Some f →
        (db_ok e = false →
         serve e (Upload req) st =
         (Some (Response 500 (error_body "Upload failed")),
          add_error "upload error:" st)) ∧
        (db_ok e = true → pub_ok e = false →
         serve e (Upload req) st =
         (Some (Response 500 (error_body "Upload failed")),
          add_error "upload error:" (add_stored (fileDoc e room username f) st))))).
Proof.
  split.
  - intros r Hauth. unfold serve. by rewrite Hauth.
  - intros username Hauth. split.
    + intros Hbad. unfold serve, respond. rewrite Hauth.
      destruct Hbad as [-> | [-> | ->]]; [done| |].
      * by destruct (up_file req).
      * by destruct (up_room req).
    + intros room f Hroom Hne Hfile. unfold serve, respond.
      rewrite Hauth, Hroom, Hfile, upload_eq by done.
      split; [by intros ->|by intros -> ->].
Qed.

Lemma upload_refused_witness :
  serve all_up (Upload anonymous_upload) st_alice =
    (Some (Response 401 (error_body "Missing token")), st_alice) ∧
  serve all_up (Upload upload_without_room) st_alice =
    (Some (Response 400 (error_body "room and file are required")), st_alice) ∧
  (serve history_down (Upload bob_uploads) st_alice).1 =
    Some (Response 500 (error_body "Upload failed")).
Proof.
  split; [|split].
  - destruct (upload_refused all_up st_alice anonymous_upload) as [H _].
    by apply H.
  - destruct (upload_refused all_up st_alice upload_without_room) as [_ H].
    destruct (H "bob" eq_refl) as [H400 _]. apply H400. by left.
  - destruct (upload_refused history_down st_alice bob_uploads) as [_ H].
    destruct (H "bob" eq_refl) as [_ H500].
    destruct (H500 "dev" photo eq_refl) as [Hdb _]; [done|done|].
    by rewrite Hdb.
Defined.

(** ** Chat history *)

#[global] Instance ts_le_trans : Transitive ts_le.
Proof. unfold ts_le. intros d1 d2 d3. lia. Qed.

#[global] Instance ts_le_total : Total ts_le.
Proof. unfold ts_le. intros d1 d2. lia. Qed.

Lemma history_eq (e : env) (room : string) (st : state) :
  room ≠ EmptyString →
  respond (history e (Some room)) st =
  if db_ok e
  then (Some (Response 200 (JArr (take 100 (merge_sort ts_le (room_docs st room))))),
        st)
  else (Some (Response 500 (error_body "server error")),
        add_error "history error:" st).
Proof.
  intros Hroom. apply String.eqb_neq in Hroom.
  unfold respond, history, Message_find, try_catch, bind, gets, console_error,
    modify, ret, throw.
  rewrite Hroom. by destruct (db_ok e).
Qed.

Lemma elem_of_room_docs (st : state) (room : string) (d : json) :
  d ∈ room_docs st room ↔ d ∈ stored st ∧ prop d "room" = Some (JStr room).
Proof.
  unfold room_docs. rewrite list_elem_of_filter, strict_eq_str_true. tauto.
Qed.

Lemma page_sorted (l : list json) (n : nat) :
  StronglySorted ts_le (take n (merge_sort ts_le l)) ∧
  ∀ d d', d ∈ take n (merge_sort ts_le l) → d' ∈ drop n (merge_sort ts_le l) →
          ts_le d d'.
Proof.
  pose proof (StronglySorted_merge_sort ts_le l) as Hs.
  rewrite <- (take_drop n (merge_sort ts_le l)) in Hs.
  apply StronglySorted_app in Hs as (Hcross & Htake & _). split; [done|].
  intros d d'. apply Hcross.
Qed.

Lemma filter_length_lt_elem {A} (P : A → Prop) `{∀ x, Decision (P x)}
    (l : list A) (x : A) :
  x ∈ l → ¬ P x → (length (filter P l) < length l)%nat.
Proof.
  intros Hin Hx. induction l as [|y l IH]; [by apply elem_of_nil in Hin|].
  rewrite filter_cons. apply elem_of_cons in Hin as [<-|Hin].
  - rewrite decide_False by done. simpl.
    pose proof (length_filter P l). lia.
  - specialize (IH Hin). destruct (decide (P y)); simpl; lia.
Qed.

Lemma filter_none {A} (P : A → Prop) `{∀ x, Decision (P x)} (l : list A) :
  (∀ x, x ∈ l → ¬ P x) → filter P l = [].
Proof.
  induction l as [|y l IH]; intros Hl; [done|].
  rewrite filter_cons, decide_False by (apply Hl; left).
  apply IH. intros x Hx. apply Hl. by right.
Qed.

(** X13. The history route answers 400 without a room or with an empty one,
    and 500, with the failure logged, when the database rejects the query; in
    both cases, as always, it changes nothing else. *)
Theorem history_refused (e : env) (st : state) (room : option string) :
  (room = None ∨ room = Some EmptyString →
   serve e (History room) st = (Some (Response 400 (error_body "room required")), st)) ∧
  (∀ r, room = Some r → r ≠ EmptyString → db_ok e = false →
        serve e (History room) st =
        (Some (Response 500 (error_body "server error")),
         add_error "history error:" st)).
Proof.
  split.
  - by intros [-> | ->].
  - intros r -> Hr Hdb. unfold serve. by rewrite history_eq, Hdb.
Qed.

Lemma history_refused_witness :
  serve all_up (History None) st_alice =
    (Some (Response 400 (error_body "room required")), st_alice) ∧
  (serve history_down (History (Some "dev")) st_alice).1 =
    Some (Response 500 (error_body "server error")).
Proof.
  destruct (history_refused all_up st_alice None) as [H400 _].
  destruct (history_refused history_down st_alice (Some "dev")) as [_ H500].
  split; [apply H400; by left|].
  by rewrite (H500 "dev" eq_refl).
Defined.

(** X14. With the database answering, the history of a room is answered 200
    with at most 100 documents, all stored for that room, in ascending order
    of timestamp, and no document of the room that is left out is older than
    one that is returned; when the room has at most 100 documents all of them
    are returned.  The state is unchanged. *)
Theorem history_page (e : env) (st : state) (room : string) :
  room ≠ EmptyString → db_ok e = true →
  ∃ docs,
    serve e (History (Some room)) st = (Some (Response 200 (JArr docs)), st) ∧
    (length docs ≤ 100)%nat ∧
    (∀ d, d ∈ docs → d ∈ stored st ∧ prop d "room" = Some (JStr room)) ∧
    StronglySorted ts_le docs ∧
    (∀ d d', d ∈ docs → d' ∈ stored st → prop d' "room" = Some (JStr room) →
             d' ∉ docs → ts_of d ≤ ts_of d') ∧
    ((length (room_docs st room) ≤ 100)%nat → docs ≡ₚ room_docs st room).
Proof.
  intros Hroom Hdb. eexists. unfold serve. rewrite history_eq, Hdb by done.
  split; [reflexivity|].
  destruct (page_sorted (room_docs st room) 100) as [Hsorted Hcross].
  split; [rewrite length_take; lia|]. split; [|split; [done|split]].
  - intros d Hd. apply elem_of_room_docs.
    rewrite <- (merge_sort_Permutation ts_le).
    rewrite <- (take_drop 100 (merge_sort ts_le (room_docs st room))).
    apply elem_of_app. by left.
  - intros d d' Hd Hd' Hr Hout. apply (Hcross d d' Hd).
    assert (Hall : d' ∈ merge_sort ts_le (room_docs st room)).
    { rewrite merge_sort_Permutation. by apply elem_of_room_docs. }
    rewrite <- (take_drop 100 (merge_sort ts_le (room_docs st room))) in Hall.
    by apply elem_of_app in Hall as [|].
  - intros Hlen. rewrite take_ge; [apply merge_sort_Permutation|].
    by rewrite (Permutation_length (merge_sort_Permutation ts_le _)).
Qed.

Lemma history_page_witness :
  ∃ docs,
    serve all_up (History (Some "dev")) st_busy =
      (Some (Response 200 (JArr docs)), st_busy) ∧
    length docs = 100%nat.
Proof.
  destruct (history_page all_up st_busy "dev") as (docs & Hserve & _);
    [discriminate | reflexivity |].
  exists docs. split; [exact Hserve|].
  vm_compute in Hserve. injection Hserve as <-. reflexivity.
Defined.

(** X15. The history is the oldest page, not the latest: a document with at
    least 100 strictly older documents in its room is never returned. *)
Theorem history_oldest_first (e : env) (st : state) (room : string) (d : json)
    (docs : list json) :
  room ≠ EmptyString → db_ok e = true →
  (100 ≤ length (filter (fun x => (ts_of x < ts_of d)%Z) (room_docs st room)))%nat →
  (serve e (History (Some room)) st).1 = Some (Response 200 (JArr docs)) →
  d ∉ docs.
Proof.
  intros Hroom Hdb Holder Hserve Hd. unfold serve in Hserve.
  rewrite history_eq, Hdb in Hserve by done. injection Hserve as <-.
  set (all := merge_sort ts_le (room_docs st room)) in *.
  destruct (page_sorted (room_docs st room) 100) as [_ Hcross]. fold all in Hcross.
  assert (Hperm : filter (fun x => ts_of x < ts_of d) all ≡ₚ
                  filter (fun x => ts_of x < ts_of d) (room_docs st room)).
  { unfold all. by rewrite merge_sort_Permutation. }
  apply Permutation_length in Hperm.
  rewrite <- (take_drop 100 all), filter_app, length_app in Hperm.
  assert (Hdrop : filter (fun x => ts_of x < ts_of d) (drop 100 all) = []).
  { apply filter_none. intros x Hx Hlt.
    specialize (Hcross d x Hd Hx). unfold ts_le in Hcross. lia. }
  rewrite Hdrop in Hperm. simpl in Hperm.
  pose proof (filter_length_lt_elem (fun x => ts_of x < ts_of d) (take 100 all) d Hd)
    as Hlt.
  assert (Hself : ¬ ts_of d < ts_of d) by lia. specialize (Hlt Hself).
  rewrite length_take in Hlt. lia.
Qed.

Lemma history_oldest_first_witness :
  ∃ docs,
    (serve all_up (History (Some "dev")) st_busy).1 = Some (Response 200 (JArr docs)) ∧
    last (stored st_busy) = Some newest ∧
    newest ∉ docs.
Proof.
  eexists. split; [by vm_compute|]. split; [by vm_compute|].
  apply (history_oldest_first all_up st_busy "dev");
    [discriminate | reflexivity | apply Nat.leb_le; by vm_compute | by vm_compute].
Defined.



(** * The server as a whole *)

(** ** What each action may change *)

Lemma ws_message_footprint (e : env) (st : state) (ws : nat) (data : option json) :
  let st' := step e (WsMessage ws data) st in
  unhandled st' = unhandled st ∧
  clients st' = clients st ∧ listeners st' = listeners st ∧
  users st' = users st ∧ readyOpen st' = readyOpen st ∧
  subscribedRooms st' = subscribedRooms st ∧
  subscriptions st' = subscriptions st ∧
  subscribe_calls st' = subscribe_calls st ∧
  (sent st' = sent st ∨ sent st' = sent st ++ [(ws, pong e)]) ∧
  (published st' = published st ∨
   ∃ room username payload,
     joined st ws room username ∧
     published st' = published st ++ [(redisRoomChannel room, payload)] ∧
     prop payload "room" = Some (JStr room)).
Proof.
  cbv zeta. simpl.
  destruct (listeners st !! ws) as [[room username]|] eqn:Hl;
    [|by repeat split; auto].
  unfold run.
  destruct data as [v|]; [|rewrite on_message_unparseable; by repeat split; auto].
  destruct (recognised v) eqn:Hrec.
  - unfold recognised, recognised_kinds in Hrec. simpl in Hrec.
    rewrite !orb_true_iff, !strict_eq_str_true in Hrec.
    destruct Hrec as [H|[H|[H|[H|[H|H]]]]]; [| | | | |done].
    1-3: match type of H with
         | _ = Some (JStr ?kind) =>
             rewrite (on_message_signal e ws room username v kind st)
               by (first [exact H | set_solver]);
             destruct (pub_ok e); [|by repeat split; auto];
             repeat split; auto; right;
             exists room, username, (signal room username v);
             repeat split; auto;
             destruct (prop_Some_object _ _ _ H) as [props ->];
             unfold signal; simpl; by rewrite !assoc_obj_set
         end.
    + rewrite on_message_message by done.
      destruct (db_ok e), (pub_ok e); repeat split; auto.
      right. by exists room, username,
        (chatMessage e room username (prop v "messageType") (prop v "text")).
    + rewrite on_message_ping by done. by repeat split; auto.
  - rewrite on_message_other by done. destruct v; by repeat split; auto.
Qed.

Lemma sub_message_footprint (e : env) (st : state) (channel : string)
    (message : option json) :
  let st' := step e (SubMessage channel message) st in
  clients st' = clients st ∧ listeners st' = listeners st ∧
  readyOpen st' = readyOpen st ∧
  subscribedRooms st' = subscribedRooms st ∧
  subscriptions st' = subscriptions st ∧
  subscribe_calls st' = subscribe_calls st ∧
  published st' = published st.
Proof.
  cbv zeta. unfold step. destruct (bool_decide _); [|done].
  unfold run. destruct message as [msg|]; [|done].
  rewrite sub_on_message_eq. by destruct msg.
Qed.

Lemma connection_rejected_footprint (e : env) (ws : nat) (req : request) (st : state) :
  authenticated e req = None →
  let st' := step e (Connection ws req) st in
  clients st' = clients st ∧ listeners st' = listeners st ∧
  readyOpen st' = ({[ws]} ∪ readyOpen st) ∖ {[ws]} ∧
  subscribedRooms st' = subscribedRooms st ∧
  subscriptions st' = subscriptions st ∧
  subscribe_calls st' = subscribe_calls st ∧
  published st' = published st.
Proof.
  intros Hauth. cbv zeta.
  destruct (authenticated_None e req Hauth) as [Ht|[Ht Hv]];
    unfold_connection; by rewrite Ht, ?Hv.
Qed.

Lemma room_of_nonempty (req : request) : room_of req ≠ EmptyString.
Proof.
  unfold room_of. destruct (req_room req) as [r|]; [|done].
  destruct (String.eqb r EmptyString) eqn:Hr; [done|]. by apply String.eqb_neq.
Qed.

Lemma connection_footprint (e : env) (ws : nat) (req : request) (username : string)
    (st : state) :
  authenticated e req = Some username →
  let st' := step e (Connection ws req) st in
  let room := room_of req in
  let ch := redisRoomChannel room in
  clients st' = <[ws := Meta (uuid e) room username]> (clients st) ∧
  readyOpen st' = {[ws]} ∪ readyOpen st ∧
  (listeners st' = listeners st ∨
   (listeners st' = <[ws := (room, username)]> (listeners st) ∧
    ch ∈ subscribedRooms st')) ∧
  ((subscribedRooms st' = subscribedRooms st ∧
    subscriptions st' = subscriptions st ∧
    subscribe_calls st' = subscribe_calls st) ∨
   ((ch ∉ subscribedRooms st) ∧
    subscribedRooms st' = {[ch]} ∪ subscribedRooms st ∧
    subscriptions st' = {[ch]} ∪ subscriptions st ∧
    subscribe_calls st' = subscribe_calls st ++ [ch])) ∧
  (published st' = published st ∨
   ∃ users, published st' = published st ++ [(ch, presence room users)]).
Proof.
  intros Hauth. cbv zeta.
  destruct (authenticated_Some e req username Hauth) as [Ht Hv].
  unfold_connection. rewrite Ht, Hv.
  case_bool_decide as Hhas; simpl;
    destruct (sub_ok e), (cli_ok e), (pub_ok e); simpl;
    repeat split; eauto 10; try (right; repeat split; set_solver).
Qed.

Lemma close_footprint (e : env) (ws : nat) (st : state) :
  let st' := step e (WsClose ws) st in
  readyOpen st' = readyOpen st ∖ {[ws]} ∧
  listeners st' = delete ws (listeners st) ∧
  (∀ ws', ws' ≠ ws → clients st' !! ws' = clients st !! ws') ∧
  subscribedRooms st' = subscribedRooms st ∧
  subscriptions st' = subscriptions st ∧
  subscribe_calls st' = subscribe_calls st ∧
  (published st' = published st ∨
   ∃ room users, published st' = published st ++ [(redisRoomChannel room, presence room users)]).
Proof.
  cbv zeta. unfold step. simpl.
  destruct (listeners st !! ws) as [[room username]|] eqn:Hl.
  - unfold run, on_close, removeUserFromRoom, cli_srem, cli_smembers, pub_publish,
      bind, gets, modify, throw.
    destruct (cli_ok e), (pub_ok e); simpl;
      (repeat split; eauto; try (intros ws' Hne; by rewrite lookup_delete_ne)).
  - repeat split; auto. simpl. by rewrite delete_id.
Qed.

Lemma upload_footprint (e : env) (req : upload_request) (st : state) :
  let st' := (serve e (Upload req) st).2 in
  clients st' = clients st ∧ listeners st' = listeners st ∧
  readyOpen st' = readyOpen st ∧
  subscribedRooms st' = subscribedRooms st ∧
  subscriptions st' = subscriptions st ∧
  subscribe_calls st' = subscribe_calls st ∧
  (published st' = published st ∨
   ∃ room payload,
     published st' = published st ++ [(redisRoomChannel room, payload)] ∧
     prop payload "room" = Some (JStr room)).
Proof.
  cbv zeta. unfold serve. destruct (httpAuth e _) as [username|r]; [|by auto 10].
  unfold respond.
  destruct (up_room req) as [room|], (up_file req) as [f|];
    try (by repeat split; auto).
  destruct (decide (room = EmptyString)) as [->|Hroom]; [by repeat split; auto|].
  rewrite upload_eq by done.
  destruct (db_ok e), (pub_ok e); simpl; repeat split; auto.
  right. by exists room, (fileMessage e room username f).
Qed.

Lemma history_footprint (e : env) (room : option string) (st : state) :
  let st' := (serve e (History room) st).2 in
  clients st' = clients st ∧ listeners st' = listeners st ∧
  readyOpen st' = readyOpen st ∧
  subscribedRooms st' = subscribedRooms st ∧
  subscriptions st' = subscriptions st ∧
  subscribe_calls st' = subscribe_calls st ∧
  published st' = published st ∧ stored st' = stored st.
Proof.
  cbv zeta. unfold serve. destruct room as [room|]; [|done].
  destruct (decide (room = EmptyString)) as [->|Hroom]; [done|].
  rewrite history_eq by done. by destruct (db_ok e).
Qed.

(** ** Invariants of the reachable states *)

Lemma subscriptions_in_step_same (st st' : state) :
  subscribedRooms st' = subscribedRooms st →
  subscriptions st' = subscriptions st →
  subscribe_calls st' = subscribe_calls st →
  subscriptions_in_step st → subscriptions_in_step st'.
Proof. unfold subscriptions_in_step. by intros -> -> ->. Qed.

Lemma subscriptions_in_step_grow (st st' : state) (ch : string) :
  ch ∉ subscribedRooms st →
  subscribedRooms st' = {[ch]} ∪ subscribedRooms st →
  subscriptions st' = {[ch]} ∪ subscriptions st →
  subscribe_calls st' = subscribe_calls st ++ [ch] →
  subscriptions_in_step st → subscriptions_in_step st'.
Proof.
  unfold subscriptions_in_step. intros Hnew -> -> -> (Hsub & Hset & Hnd).
  split; [by rewrite Hsub|]. split.
  - rewrite list_to_set_app_L, <- Hset. set_solver.
  - apply NoDup_app. split; [done|]. split; [|apply NoDup_singleton].
    intros x Hx Hch. apply list_elem_of_singleton in Hch as ->.
    apply Hnew. rewrite Hset. by apply elem_of_list_to_set.
Qed.

Lemma reachable_subscriptions (st : state) :
  reachable st → subscriptions_in_step st.
Proof.
  induction 1 as [|e a st _ IH Hfresh].
  - unfold subscriptions_in_step, init. simpl. split; [done|].
    split; [done|apply NoDup_nil_2].
  - destruct a as [[ws req|ws data|ws|channel message]|req|room].
    + destruct (authenticated e req) as [username|] eqn:Hauth.
      * destruct (connection_footprint e ws req username st Hauth)
          as (_ & _ & _ & [(H1 & H2 & H3)|(Hnew & H1 & H2 & H3)] & _).
        -- by eapply subscriptions_in_step_same.
        -- by eapply subscriptions_in_step_grow.
      * destruct (connection_rejected_footprint e ws req st Hauth)
          as (_ & _ & _ & H1 & H2 & H3 & _).
        by eapply subscriptions_in_step_same.
    + destruct (ws_message_footprint e st ws data)
        as (_ & _ & _ & _ & _ & H1 & H2 & H3 & _).
      by eapply subscriptions_in_step_same.
    + destruct (close_footprint e ws st) as (_ & _ & _ & H1 & H2 & H3 & _).
      by eapply subscriptions_in_step_same.
    + destruct (sub_message_footprint e st channel message)
        as (_ & _ & _ & H1 & H2 & H3 & _).
      by eapply subscriptions_in_step_same.
    + destruct (upload_footprint e req st) as (_ & _ & _ & H1 & H2 & H3 & _).
      by eapply subscriptions_in_step_same.
    + destruct (history_footprint e room st) as (_ & _ & _ & H1 & H2 & H3 & _).
      by eapply subscriptions_in_step_same.
Qed.

Lemma sessions_registered_same (st st' : state) :
  clients st' = clients st → listeners st' = listeners st →
  readyOpen st' = readyOpen st → subscribedRooms st' = subscribedRooms st →
  sessions_registered st → sessions_registered st'.
Proof. unfold sessions_registered. by intros -> -> -> ->. Qed.

Lemma reachable_sessions (st : state) : reachable st → sessions_registered st.
Proof.
  induction 1 as [|e a st _ IH Hfresh].
  - intros ws room username H. simpl in H. by rewrite lookup_empty in H.
  - destruct a as [[ws req|ws data|ws|channel message]|req|room];
      try change (sessions_registered (step e (Connection ws req) st));
      try change (sessions_registered (step e (WsClose ws) st)).
    + destruct Hfresh as [_ Hnone].
      destruct (authenticated e req) as [username|] eqn:Hauth.
      * destruct (connection_footprint e ws req username st Hauth)
          as (Hc & Hopen & Hl & Hsub & _).
        assert (Hgrow : subscribedRooms st ⊆
                        subscribedRooms (step e (Connection ws req) st)).
        { destruct Hsub as [(-> & _)|(_ & -> & _)]; set_solver. }
        intros ws' room username' Hj.
        assert (Hold : ws' ≠ ws → listeners st !! ws' = Some (room, username') →
          (∃ id, clients (step e (Connection ws req) st) !! ws' =
                 Some (Meta id room username')) ∧
          redisRoomChannel room ∈ subscribedRooms (step e (Connection ws req) st) ∧
          ws' ∈ readyOpen (step e (Connection ws req) st) ∧ room ≠ EmptyString).
        { intros Hne Hj'. destruct (IH ws' room username' Hj') as (Hreg & Hch & Hop & Hr).
          rewrite Hc, Hopen, lookup_insert_ne by done. set_solver. }
        destruct Hl as [Hl|[Hl Hch]]; rewrite Hl in Hj.
        -- apply Hold; [|done]. intros ->. congruence.
        -- destruct (decide (ws' = ws)) as [->|Hne].
           ++ rewrite lookup_insert_eq in Hj. injection Hj as <- <-.
              rewrite Hc, Hopen, lookup_insert_eq.
              repeat split; [by eauto | done | set_solver | apply room_of_nonempty].
           ++ rewrite lookup_insert_ne in Hj by done. by apply Hold.
      * destruct (connection_rejected_footprint e ws req st Hauth)
          as (Hc & Hl & Hopen & Hsub & _).
        intros ws' room username' Hj. rewrite Hl in Hj.
        destruct (IH ws' room username' Hj) as (Hreg & Hch & Hop & Hr).
        rewrite Hc, Hopen, Hsub. repeat split; try done.
        assert (ws' ≠ ws) by (intros ->; congruence). set_solver.
    + destruct (ws_message_footprint e st ws data)
        as (_ & Hc & Hl & _ & Hopen & Hsub & _).
      by eapply sessions_registered_same.
    + destruct (close_footprint e ws st) as (Hopen & Hl & Hc & Hsub & _).
      intros ws' room username' Hj. rewrite Hl in Hj.
      destruct (decide (ws' = ws)) as [->|Hne]; [by rewrite lookup_delete_eq in Hj|].
      rewrite lookup_delete_ne in Hj by done.
      destruct (IH ws' room username' Hj) as (Hreg & Hch & Hop & Hr).
      rewrite Hc, Hopen, Hsub by done. repeat split; try done. set_solver.
    + destruct (sub_message_footprint e st channel message)
        as (Hc & Hl & Hopen & Hsub & _).
      by eapply sessions_registered_same.
    + destruct (upload_footprint e req st) as (Hc & Hl & Hopen & Hsub & _).
      by eapply sessions_registered_same.
    + destruct (history_footprint e room st) as (Hc & Hl & Hopen & Hsub & _).
      by eapply sessions_registered_same.
Qed.

Lemma reachable_st_three : reachable st_three.
Proof.
  change (reachable
            (serve all_up (Gateway (Connection 3%nat bob_ops))
               (serve all_up (Gateway (Connection 2%nat bob_dev))
                  (serve all_up (Gateway (Connection 1%nat alice_dev)) init).2).2).2).
  repeat (apply reachable_serve; [|by vm_compute]). apply reachable_init.
Defined.



(** X18. In every state the server reaches, a socket with listeners is
    registered in [clients] under the room and identity its listeners close
    over, its room is not the empty name, and the process is subscribed at
    Redis to the channel of that room. *)
Theorem joined_sessions_registered (st : state) (ws : nat) (room username : string) :
  reachable st →
  joined st ws room username →
  (∃ id, clients st !! ws = Some (Meta id room username)) ∧
  redisRoomChannel room ∈ subscriptions st ∧
  room ≠ EmptyString.
Proof.
  intros Hreach Hj.
  destruct (reachable_subscriptions st Hreach) as (Hsub & _).
  destruct (reachable_sessions st Hreach ws room username Hj)
    as (Hreg & Hch & _ & Hroom).
  rewrite Hsub. by repeat split.
Qed.

Lemma joined_sessions_registered_witness :
  redisRoomChannel "ops" ∈ subscriptions st_three.
Proof.
  by destruct (joined_sessions_registered st_three 3%nat "ops" "bob"
                 reachable_st_three) as (_ & Hch & _); [by vm_compute|].
Defined.

(** X19. In every state the server reaches, every payload ever published,
    be it a presence snapshot, a chat message, a relayed signal or a file
    message, was published on the channel of the room its [room] field
    names. *)
Theorem published_on_room_channel (st : state) (ch : string) (payload : json) :
  reachable st →
  (ch, payload) ∈ published st →
  ∃ room, ch = redisRoomChannel room ∧ prop payload "room" = Some (JStr room).
Proof.
  intros Hreach. revert ch payload.
  assert (Hgrow : ∀ st st' : state,
    (∀ ch payload, (ch, payload) ∈ published st → on_room_channel (ch, payload)) →
    (published st' = published st ∨
     ∃ room payload, published st' = published st ++ [(redisRoomChannel room, payload)] ∧
                     prop payload "room" = Some (JStr room)) →
    ∀ ch payload, (ch, payload) ∈ published st' → on_room_channel (ch, payload)).
  { intros s s' IH [->|(room & p & -> & Hp)] ch payload Hin; [by apply IH|].
    apply elem_of_app in Hin as [Hin|Hin]; [by apply IH|].
    apply list_elem_of_singleton in Hin as [= -> ->]. by exists room. }
  induction Hreach as [|e a st _ IH Hfresh]; intros ch payload Hin.
  - by apply elem_of_nil in Hin.
  - revert ch payload Hin. apply (Hgrow st); [exact IH|].
    destruct a as [[ws req|ws data|ws|channel message]|req|room].
    + destruct (authenticated e req) as [username|] eqn:Hauth.
      * destruct (connection_footprint e ws req username st Hauth)
          as (_ & _ & _ & _ & [Hp|[users Hp]]); [by left|].
        right. by exists (room_of req), (presence (room_of req) users).
      * destruct (connection_rejected_footprint e ws req st Hauth)
          as (_ & _ & _ & _ & _ & _ & Hp). by left.
    + destruct (ws_message_footprint e st ws data)
        as (_ & _ & _ & _ & _ & _ & _ & _ & _ & [Hp|(room & u & p & _ & Hp & Hr)]);
        [by left|]. right. by exists room, p.
    + destruct (close_footprint e ws st)
        as (_ & _ & _ & _ & _ & _ & [Hp|(room & users & Hp)]); [by left|].
      right. by exists room, (presence room users).
    + destruct (sub_message_footprint e st channel message)
        as (_ & _ & _ & _ & _ & _ & Hp). by left.
    + by destruct (upload_footprint e req st) as (_ & _ & _ & _ & _ & _ & Hp).
    + destruct (history_footprint e room st) as (_ & _ & _ & _ & _ & _ & Hp & _).
      by left.
Qed.

Lemma published_on_room_channel_witness :
  ∃ room, "room:ops:channel" = redisRoomChannel room ∧
          prop (presence "ops" ["bob"]) "room" = Some (JStr room).
Proof.
  apply (published_on_room_channel st_three); [exact reachable_st_three|].
  vm_compute. do 2 right. left.
Defined.

(** X20. End to end, in every state the server reaches: a chat frame from
    a joined session, with the database and Redis answering, is published on
    the channel of the session's room, to which this process is subscribed;
    when Redis delivers it, it is sent exactly once to every registered open
    socket of that room, the sender's own socket included when it is open,
    and to no socket of another room. *)
Theorem chat_reaches_room (e e' : env) (st : state) (ws : nat)
    (room username : string) (v : json) :
  reachable st →
  joined st ws room username →
  prop v "type" = Some (JStr "message") →
  db_ok e = true → pub_ok e = true →
  let chat := chatMessage e room username (prop v "messageType") (prop v "text") in
  let st1 := step e (WsMessage ws (Some v)) st in
  let st2 := step e' (SubMessage (redisRoomChannel room) (Some chat)) st1 in
  last (published st1) = Some (redisRoomChannel room, chat) ∧
  (ws ∈ readyOpen st → sent_to st2 ws = sent_to st ws ++ [chat]) ∧
  ∀ ws' m,
    clients st !! ws' = Some m →
    sent_to st2 ws' =
    sent_to st ws' ++
      (if bool_decide (meta_room m = room) && bool_decide (ws' ∈ readyOpen st)
       then [chat] else []).
Proof.
  intros Hreach Hj Hv Hdb Hpub chat st1 st2.
  destruct (reachable_subscriptions st Hreach) as (Hsub & _).
  destruct (reachable_sessions st Hreach ws room username Hj)
    as ([id Hreg] & Hch & _).
  assert (Hst1 : st1 =
    add_published (redisRoomChannel room) chat
      (add_stored (messageDoc e room username (prop v "messageType") (prop v "text"))
         st)).
  { subst st1. rewrite (step_message e st ws room username) by done.
    unfold run. by rewrite on_message_message, Hdb, Hpub by done. }
  assert (Hall : ∀ ws' m,
    clients st !! ws' = Some m →
    sent_to st2 ws' =
    sent_to st ws' ++
      (if bool_decide (meta_room m = room) && bool_decide (ws' ∈ readyOpen st)
       then [chat] else [])).
  { intros ws' m Hm. subst st2. unfold step.
    rewrite bool_decide_eq_true_2 by (rewrite Hst1; simpl; by rewrite Hsub).
    destruct (sub_on_message_sent_to (redisRoomChannel room) chat st1 ws')
      as (-> & _).
    rewrite Hst1. unfold forwarded, forwards, sent_to. simpl. rewrite Hm.
    destruct (String.eqb_spec room (meta_room m)) as [<-|Hne].
    - by rewrite (bool_decide_eq_true_2 (room = room)).
    - by rewrite (bool_decide_eq_false_2 (meta_room m = room)). }
  split; [rewrite Hst1; simpl; by rewrite last_snoc|]. split; [|exact Hall].
  intros Hopen. rewrite (Hall ws _ Hreg). simpl.
  by rewrite !bool_decide_eq_true_2.
Qed.

Lemma chat_reaches_room_witness :
  let chat := chatMessage all_up "dev" "alice" (Some (JStr "text")) (Some (JStr "hi")) in
  let st2 := step all_up (SubMessage "room:dev:channel" (Some chat))
               (step all_up (WsMessage 1%nat (Some hi)) st_three) in
  sent_to st2 1%nat = sent_to st_three 1%nat ++ [chat] ∧
  sent_to st2 2%nat = sent_to st_three 2%nat ++ [chat] ∧
  sent_to st2 3%nat = sent_to st_three 3%nat.
Proof.
  destruct (chat_reaches_room all_up all_up st_three 1%nat "dev" "alice" hi
              reachable_st_three) as (_ & Hsender & Hall);
    [by vm_compute | reflexivity | reflexivity | reflexivity |].
  split; [apply Hsender; by vm_compute|]. split.
  - refine (Hall 2%nat (Meta "0b5e6f0a-0001" "dev" "bob") _). by vm_compute.
  - rewrite <- (app_nil_r (sent_to st_three 3%nat)).
    refine (Hall 3%nat (Meta "0b5e6f0a-0001" "ops" "bob") _). by vm_compute.
Defined.

(** ** A join seen by the room *)




(** * Configuration *)

(** X22. The Redis address is never empty.  A non-empty REDIS_URL is used
    as it is; an empty one counts as unset.  In production (the Docker image)
    REDIS_LOCAL plays no part, and outside production REDIS_DOCKER plays
    none. *)
Theorem redis_url_choice (penv : gmap string string) :
  REDIS_URL penv ≠ EmptyString ∧
  (∀ url, penv !! "REDIS_URL" = Some url → url ≠ EmptyString → REDIS_URL penv = url) ∧
  REDIS_URL (<["REDIS_URL" := EmptyString]> penv) = REDIS_URL (delete "REDIS_URL" penv) ∧
  (isDocker penv = true →
   ∀ v, REDIS_URL (<["REDIS_LOCAL" := v]> penv) = REDIS_URL penv) ∧
  (isDocker penv = false →
   ∀ v, REDIS_URL (<["REDIS_DOCKER" := v]> penv) = REDIS_URL penv).
Proof.
  split; [|split; [|split; [|split]]].
  - unfold REDIS_URL, or_else.
    repeat case_match; simplify_eq; simpl; try done;
      try (match goal with H : String.eqb _ _ = false |- _ =>
             by apply String.eqb_neq in H end).
  - intros url Hurl Hne. apply String.eqb_neq in Hne.
    unfold REDIS_URL, or_else. by rewrite Hurl, Hne, Hne.
  - unfold REDIS_URL, isDocker, or_else.
    rewrite lookup_insert_eq, lookup_delete_eq.
    by rewrite !lookup_insert_ne, !lookup_delete_ne by done.
  - intros Hprod v. unfold isDocker in Hprod. unfold REDIS_URL, isDocker.
    rewrite (lookup_insert_ne _ _ "NODE_ENV"), (lookup_insert_ne _ _ "REDIS_URL")
      by done.
    destruct (penv !! "NODE_ENV") as [mode|]; [|done].
    by rewrite Hprod, lookup_insert_ne.
  - intros Hdev v. unfold isDocker in Hdev. unfold REDIS_URL, isDocker.
    rewrite (lookup_insert_ne _ _ "NODE_ENV"), (lookup_insert_ne _ _ "REDIS_URL")
      by done.
    destruct (penv !! "NODE_ENV") as [mode|];
      [rewrite Hdev|]; by rewrite lookup_insert_ne.
Qed.

Lemma redis_url_choice_witness :
  REDIS_URL (<["REDIS_LOCAL" := "redis://elsewhere:1"]> docker_env) =
  "redis://redis:6379".
Proof.
  destruct (redis_url_choice docker_env) as (_ & _ & _ & Hprod & _).
  by rewrite Hprod.
Defined.
